(** * Unifai multi-agent chat: a shallow embedding of the turn orchestrator,
    the agent selector, the response formatter and the chat endpoint.

    Sources embedded (agent/src/multi-agent/):
    - responseFormatter.ts   (ResponseFormatter)
    - agentSelector.ts       (AgentSelector)
    - chatWorkflowManager.ts (ChatWorkflowManager)
    - chat-endpoint.ts       (setupMultiAgentChatEndpoint)

    Conventions of the embedding.
    - A JavaScript string is a list of code units; every code unit is below
      256 here (the Latin-1 range), so a text is a [list ascii].
    - A JavaScript number that the source computes with fractions (length
      budgets, scores, probabilities) is an exact rational in [Q]; the source
      rounds to IEEE doubles.  Integers (lengths, indices, turns) are [nat].
    - [Math.random()] is a stream [nat -> Q] read at a cursor kept in the
      world state; [Date.now()] likewise.
    - Regular expressions are values of [regex], run by a backtracking
      matcher with the ECMAScript priorities (leftmost, greedy).  Patterns are
      written as their source text and read by [parseRegExp], which plays the
      role of the RegExp constructor: [None] is a thrown SyntaxError.
    - An exception is an outcome of its own: [None] where a function can
      only throw or return, [Rejected] for the promise of processMessage.
    - Objects used as maps (sessionContexts, sessionTopics) are [gmap]s; the
      runtimes object, whose key order matters, is an association list.  The
      maps hold the own properties: a read under a key that names a property
      of Object.prototype finds the inherited value instead.  [ordinaryKey]
      excludes those keys where a property depends on it, and [MethodSession]
      follows a session whose id is the name of an inherited method.
    - global.currentContext always refers to the context object of the
      session being processed, so the formatter called from processMessage
      reads the fields of that context.
    - Logging, timer delays and the model options handed to generateText are
      not part of the model. *)

From Stdlib Require Import Ascii String DecimalString List ZArith QArith Qround Lia Lqa Sorted.
From stdpp Require Import base option list gmap strings.

Local Open Scope nat_scope.
Local Open Scope list_scope.

Abbreviation text := (list ascii) (only parsing).

(** A text literal. *)
Definition txt (s : string) : text := list_ascii_of_string s.

(** * Code units *)

Module Char.

Definition code (c : ascii) : N := N_of_ascii c.
Definition of_code (n : N) : ascii := ascii_of_N n.

Definition between (lo hi : N) (c : ascii) : bool :=
  ((lo <=? code c) && (code c <=? hi))%N.

Definition hasCode (n : N) (c : ascii) : bool := (code c =? n)%N.

Definition eqb (a b : ascii) : bool := Ascii.eqb a b.

Definition isUpperAZ (c : ascii) : bool := between 65 90 c.
Definition isLowerAZ (c : ascii) : bool := between 97 122 c.
Definition isDigit (c : ascii) : bool := between 48 57 c.

(** [\w] *)
Definition isWord (c : ascii) : bool :=
  isUpperAZ c || isLowerAZ c || isDigit c || hasCode 95 c.

(** WhiteSpace and LineTerminator code units below 256: what [\s] matches and
    what [trim] strips. *)
Definition isSpace (c : ascii) : bool :=
  between 9 13 c || hasCode 32 c || hasCode 160 c.

(** What [.] does not match. *)
Definition isLineTerminator (c : ascii) : bool :=
  Ascii.eqb c "010"%char || Ascii.eqb c "013"%char.

(** Upper-case Latin-1 letters other than the multiplication sign. *)
Definition isUpperLatin (c : ascii) : bool :=
  between 192 222 c && negb (hasCode 215 c).
Definition isLowerLatin (c : ascii) : bool :=
  between 224 254 c && negb (hasCode 247 c).

(** [String.prototype.toLowerCase] on one code unit: the upper-case letters
    are the code units 65..90 and 192..222 (without 215); their lower-case
    forms are 32 further, which sets the bit of weight 32 (see
    [toLower_spec]). *)
Definition toLower (c : ascii) : ascii :=
  if isUpperAZ c || isUpperLatin c then
    match c with
    | Ascii b0 b1 b2 b3 b4 _ b6 b7 => Ascii b0 b1 b2 b3 b4 true b6 b7
    end
  else c.

(** [String.prototype.toUpperCase] on one code unit, where the result is
    again one code unit below 256 (so sharp s, micro and y-diaeresis stay);
    this is also the Canonicalize of case-insensitive matching.  The
    upper-case form is 32 below (see [toUpper_spec]). *)
Definition toUpper (c : ascii) : ascii :=
  if isLowerAZ c || isLowerLatin c then
    match c with
    | Ascii b0 b1 b2 b3 b4 _ b6 b7 => Ascii b0 b1 b2 b3 b4 false b6 b7
    end
  else c.

Definition nl : ascii := of_code 10.
Definition quote : ascii := of_code 34.

End Char.

(** * String methods *)

Module Str.

Definition toLowerCase (s : text) : text := map Char.toLower s.

Fixpoint startsWith (s p : text) : bool :=
  match p, s with
  | [], _ => true
  | _ :: _, [] => false
  | a :: p', b :: s' => Char.eqb a b && startsWith s' p'
  end.

Fixpoint includes (s p : text) : bool :=
  startsWith s p ||
  match s with
  | [] => false
  | _ :: s' => includes s' p
  end.

(** [indexOf]: [None] stands for -1. *)
Fixpoint indexOf (s p : text) : option nat :=
  if startsWith s p then Some 0
  else match s with
       | [] => None
       | _ :: s' => option_map S (indexOf s' p)
       end.

(** [s.substring(0, n)] and [s.substring(n)] for [0 <= n]. *)
Definition substringTo (s : text) (n : nat) : text := take n s.
Definition substringFrom (s : text) (n : nat) : text := drop n s.

Fixpoint trimStart (s : text) : text :=
  match s with
  | c :: s' => if Char.isSpace c then trimStart s' else s
  | [] => []
  end.

Definition trimEnd (s : text) : text := rev (trimStart (rev s)).
Definition trim (s : text) : text := trimStart (trimEnd s).

(** [s.split(sep)] for a non-empty separator string. [skip] counts the code
    units of a separator still to be passed over. *)
Fixpoint splitGo (sep : text) (skip : nat) (cur : text) (s : text) : list text :=
  match s with
  | [] => [rev cur]
  | c :: s' =>
      match skip with
      | S k => splitGo sep k cur s'
      | O => if startsWith s sep
             then rev cur :: splitGo sep (length sep - 1) [] s'
             else splitGo sep 0 (c :: cur) s'
      end
  end.

Definition split (s sep : text) : list text := splitGo sep 0 [] s.

(** [a.join(sep)] *)
Fixpoint join (sep : text) (l : list text) : text :=
  match l with
  | [] => []
  | [x] => x
  | x :: l' => x ++ sep ++ join sep l'
  end.

Definition eqb (a b : text) : bool := bool_decide (a = b).

(** Truthiness of a string: non-empty. *)
Definition truthy (s : text) : bool :=
  match s with [] => false | _ => true end.

(** Decimal rendering of a number, as in a template literal. *)
Definition ofNat (n : nat) : text :=
  txt (NilEmpty.string_of_uint (Nat.to_uint n)).

End Str.

(** * Regular expressions *)

Module Regex.

(** Members of a character class. *)
Inductive citem :=
| CChar (c : ascii)
| CRange (lo hi : ascii)
| CSpace
| CWord
| CDigit.

(** Patterns. Groups, capturing or not, only structure a pattern: a
    replacement that refers to a captured text takes it from the matched text
    (see [Formatter.rejoin]). *)
Inductive regex :=
| REmpty
| RChar (c : ascii)
| RAny
| RClass (neg : bool) (items : list citem)
| RSeq (r1 r2 : regex)
| RAlt (r1 r2 : regex)
| RRep (lo : nat) (hi : option nat) (r : regex)
| RBol
| REol
| RWordB (neg : bool).

(** A position in the subject: its index, the code units before it (nearest
    first) and the code units from it on. *)
Record pos := Pos { idx : N; before : text; rest : text }.

Definition start (s : text) : pos := Pos 0 [] s.

(** The position one code unit further. *)
Definition next (c : ascii) (s : text) (p : pos) : pos :=
  Pos (N.succ (idx p)) (c :: before p) s.

Definition sameChar (ic : bool) (a b : ascii) : bool :=
  if ic then Char.eqb (Char.toUpper a) (Char.toUpper b) else Char.eqb a b.

Definition itemHas (i : citem) (c : ascii) : bool :=
  match i with
  | CChar a => Char.eqb a c
  | CRange lo hi => Char.between (Char.code lo) (Char.code hi) c
  | CSpace => Char.isSpace c
  | CWord => Char.isWord c
  | CDigit => Char.isDigit c
  end.

Definition classHas (ic : bool) (items : list citem) (c : ascii) : bool :=
  existsb (fun i => if itemHas i c then true
                    else if ic then itemHas i (Char.toUpper c) || itemHas i (Char.toLower c)
                    else false)
          items.

Definition isWordAt (l : text) : bool :=
  match l with
  | c :: _ => Char.isWord c
  | [] => false
  end.

Definition atWordBoundary (p : pos) : bool :=
  xorb (isWordAt (before p)) (isWordAt (rest p)).

(** One code unit accepted by [ok]. *)
Definition step (ok : ascii -> bool) (p : pos) (k : pos -> option pos) : option pos :=
  match rest p with
  | c :: s => if ok c then k (next c s p) else None
  | [] => None
  end.

Definition spent (hi : option nat) : bool :=
  match hi with
  | Some O => true
  | _ => false
  end.

(** The greedy RepeatMatcher over a matcher [m] of the repeated pattern and
    the continuation [k] of the repetition.  [optional] runs the iterations
    that are not required: one that consumes nothing is rejected, so there
    are at most as many of them as code units left, which is what [fuel]
    holds.  [required] runs the [lo] required iterations first. *)
Fixpoint optional (m : pos -> (pos -> option pos) -> option pos) (k : pos -> option pos)
  (fuel : text) (hi : option nat) (p : pos) {struct fuel} : option pos :=
  if spent hi then k p else
  match fuel with
  | [] => k p
  | _ :: fuel' =>
      match m p (fun p' =>
                   if (idx p' =? idx p)%N then None
                   else optional m k fuel' (option_map pred hi) p') with
      | Some e => Some e
      | None => k p
      end
  end.

Fixpoint required (m : pos -> (pos -> option pos) -> option pos) (k : pos -> option pos)
  (lo : nat) (hi : option nat) (p : pos) {struct lo} : option pos :=
  if spent hi then k p else
  match lo with
  | S lo' => m p (fun p' => required m k lo' (option_map pred hi) p')
  | O => optional m k (rest p) hi p
  end.

(** The backtracking matcher, in continuation-passing style: [rmatch ic r p k]
    is the end position of the first way (in ECMAScript priority order) to
    match [r] at [p] that the continuation [k] accepts. *)
Fixpoint rmatch (ic : bool) (r : regex) (p : pos) (k : pos -> option pos)
  {struct r} : option pos :=
  match r with
  | REmpty => k p
  | RChar c => step (sameChar ic c) p k
  | RAny => step (fun c => negb (Char.isLineTerminator c)) p k
  | RClass neg items => step (fun c => xorb neg (classHas ic items c)) p k
  | RSeq r1 r2 => rmatch ic r1 p (fun p1 => rmatch ic r2 p1 k)
  | RAlt r1 r2 =>
      match rmatch ic r1 p k with
      | Some e => Some e
      | None => rmatch ic r2 p k
      end
  | RRep lo hi r1 => required (rmatch ic r1) k lo hi p
  | RBol => match before p with [] => k p | _ => None end
  | REol => match rest p with [] => k p | _ => None end
  | RWordB neg => if xorb neg (atWordBoundary p) then k p else None
  end.

Definition matchAt (ic : bool) (r : regex) (p : pos) : option pos :=
  rmatch ic r p Some.

(** The text matched between a start position and an end position. *)
Definition matched (p e : pos) : text :=
  take (N.to_nat (idx e - idx p)) (rest p).

(** [r.exec(s)] without the g flag: the leftmost match, as the matched text
    and the positions around it. *)
Fixpoint execFrom (ic : bool) (r : regex) (i : N) (b : text) (s : text)
  : option (pos * pos) :=
  match matchAt ic r (Pos i b s) with
  | Some e => Some (Pos i b s, e)
  | None => match s with
            | [] => None
            | c :: s' => execFrom ic r (N.succ i) (c :: b) s'
            end
  end.

Definition exec (ic : bool) (r : regex) (s : text) : option text :=
  match execFrom ic r 0 [] s with
  | Some (p, e) => Some (matched p e)
  | None => None
  end.

(** [r.test(s)] for a regex whose lastIndex is 0. *)
Definition test (ic : bool) (r : regex) (s : text) : bool :=
  match execFrom ic r 0 [] s with
  | Some _ => true
  | None => false
  end.

(** [s.replace(r, f)] with the g flag: [f] maps a matched text to its
    replacement. After an empty match the next code unit is copied. *)
Fixpoint replaceGo (ic : bool) (r : regex) (f : text -> text)
  (skip : nat) (i : N) (b : text) (s : text) : text :=
  match s with
  | [] =>
      match skip, matchAt ic r (Pos i b []) with
      | O, Some _ => f []
      | _, _ => []
      end
  | c :: s' =>
      match skip with
      | S n => replaceGo ic r f n (N.succ i) (c :: b) s'
      | O =>
          match matchAt ic r (Pos i b s) with
          | Some e =>
              let m := matched (Pos i b s) e in
              match length m with
              | O => f m ++ c :: replaceGo ic r f 0 (N.succ i) (c :: b) s'
              | S n => f m ++ replaceGo ic r f n (N.succ i) (c :: b) s'
              end
          | None => c :: replaceGo ic r f 0 (N.succ i) (c :: b) s'
          end
      end
  end.

Definition replaceAll (ic : bool) (r : regex) (f : text -> text) (s : text) : text :=
  replaceGo ic r f 0 0 [] s.

(** [s.replace(r, f)] without the g flag: only the leftmost match. *)
Definition replaceFirst (ic : bool) (r : regex) (f : text -> text) (s : text) : text :=
  match execFrom ic r 0 [] s with
  | Some (p, e) => rev (before p) ++ f (matched p e) ++ rest e
  | None => s
  end.

(** [s.split(r)] for a pattern that never matches the empty text: the pieces
    between the matches. *)
Fixpoint splitGo (ic : bool) (r : regex) (skip : nat) (cur : text)
  (i : N) (b : text) (s : text) : list text :=
  match s with
  | [] => [rev cur]
  | c :: s' =>
      match skip with
      | S n => splitGo ic r n cur (N.succ i) (c :: b) s'
      | O =>
          match matchAt ic r (Pos i b s) with
          | Some e =>
              match length (matched (Pos i b s) e) with
              | O => splitGo ic r 0 (c :: cur) (N.succ i) (c :: b) s'
              | S n => rev cur :: splitGo ic r n [] (N.succ i) (c :: b) s'
              end
          | None => splitGo ic r 0 (c :: cur) (N.succ i) (c :: b) s'
          end
      end
  end.

Definition split (ic : bool) (r : regex) (s : text) : list text :=
  splitGo ic r 0 [] 0 [] s.

End Regex.

(** * The RegExp constructor *)

Module RegExp.
Import Regex.

(** The pattern syntax read here is what the patterns of the sources use:
    literals, [.], classes with ranges and the escapes for space, word and
    digit, groups (capturing or [?:]), alternation, the quantifiers star,
    plus, question mark and braces (greedy), line anchors, word boundaries
    and escaped punctuation.  A pattern with an unbalanced parenthesis or a
    quantifier with nothing to repeat is a SyntaxError in ECMAScript and is
    [None] here.  Look-around, back-references, lazy quantifiers, named
    groups and hexadecimal or control escapes are used by no pattern of the
    sources and are [None] here as well. *)

Fixpoint digitsGo (acc : nat) (seen : bool) (s : text) : option (nat * text) :=
  match s with
  | c :: s' =>
      if Char.isDigit c then digitsGo (10 * acc + N.to_nat (Char.code c - 48)) true s'
      else if seen then Some (acc, s) else None
  | [] => if seen then Some (acc, s) else None
  end.

(** A decimal number at the head of [s]. *)
Definition digits (s : text) : option (nat * text) := digitsGo 0 false s.

(** The quantifier, if any, that follows an atom. *)
Definition quantifier (s : text) : option (nat * option nat * text) :=
  match s with
  | "*"%char :: s' => Some (0, None, s')
  | "+"%char :: s' => Some (1, None, s')
  | "?"%char :: s' => Some (0, Some 1, s')
  | "{"%char :: s' =>
      match digits s' with
      | Some (lo, "}"%char :: s2) => Some (lo, Some lo, s2)
      | Some (lo, ","%char :: "}"%char :: s2) => Some (lo, None, s2)
      | Some (lo, ","%char :: s2) =>
          match digits s2 with
          | Some (hi, "}"%char :: s3) => Some (lo, Some hi, s3)
          | _ => None
          end
      | _ => None
      end
  | _ => None
  end.

Definition isSyntaxChar (c : ascii) : bool :=
  existsb (Char.eqb c) (txt "^$\.*+?()[]{}|/-").

(** The atom or assertion an escape stands for. The flag tells whether a
    quantifier may follow. *)
Definition escape (c : ascii) : option (regex * bool) :=
  match c with
  | "n"%char => Some (RChar Char.nl, true)
  | "t"%char => Some (RChar (Char.of_code 9), true)
  | "r"%char => Some (RChar (Char.of_code 13), true)
  | "f"%char => Some (RChar (Char.of_code 12), true)
  | "v"%char => Some (RChar (Char.of_code 11), true)
  | "s"%char => Some (RClass false [CSpace], true)
  | "S"%char => Some (RClass true [CSpace], true)
  | "w"%char => Some (RClass false [CWord], true)
  | "W"%char => Some (RClass true [CWord], true)
  | "d"%char => Some (RClass false [CDigit], true)
  | "D"%char => Some (RClass true [CDigit], true)
  | "b"%char => Some (RWordB false, false)
  | "B"%char => Some (RWordB true, false)
  | _ => if isSyntaxChar c then Some (RChar c, true) else None
  end.

(** One member of a class, without its possible range. *)
Definition classAtom (s : text) : option (citem * text) :=
  match s with
  | "\"%char :: c :: s' =>
      match c with
      | "n"%char => Some (CChar Char.nl, s')
      | "t"%char => Some (CChar (Char.of_code 9), s')
      | "r"%char => Some (CChar (Char.of_code 13), s')
      | "s"%char => Some (CSpace, s')
      | "w"%char => Some (CWord, s')
      | "d"%char => Some (CDigit, s')
      | _ => if isSyntaxChar c then Some (CChar c, s') else None
      end
  | "\"%char :: [] => None
  | c :: s' => Some (CChar c, s')
  | [] => None
  end.

(** The members of a class up to its closing bracket. *)
Fixpoint classItems (fuel : nat) (s : text) : option (list citem * text) :=
  match fuel with
  | O => None
  | S fuel' =>
      match s with
      | "]"%char :: s' => Some ([], s')
      | _ =>
          match classAtom s with
          | Some (CChar lo, "-"%char :: s1) =>
              match s1 with
              | "]"%char :: _ =>
                  match classItems fuel' s1 with
                  | Some (l, s2) => Some (CChar lo :: l, s2)
                  | None => None
                  end
              | _ =>
                  match classAtom s1 with
                  | Some (CChar hi, s2) =>
                      if (Char.code lo <=? Char.code hi)%N then
                        match classItems fuel' s2 with
                        | Some (l, s3) => Some (CRange lo hi :: l, s3)
                        | None => None
                        end
                      else None
                  | _ => None
                  end
              end
          | Some (i, s1) =>
              match classItems fuel' s1 with
              | Some (l, s2) => Some (i :: l, s2)
              | None => None
              end
          | None => None
          end
      end
  end.

Definition class (s : text) : option (regex * text) :=
  match s with
  | "^"%char :: s' =>
      match classItems (S (length s')) s' with
      | Some (l, s2) => Some (RClass true l, s2)
      | None => None
      end
  | _ =>
      match classItems (S (length s)) s with
      | Some (l, s2) => Some (RClass false l, s2)
      | None => None
      end
  end.

Fixpoint alternatives (l : list regex) : regex :=
  match l with
  | [] => REmpty
  | [r] => r
  | r :: l' => RAlt r (alternatives l')
  end.

Definition seq (a b : regex) : regex :=
  match b with
  | REmpty => a
  | _ => RSeq a b
  end.

(** An atom followed by its quantifier. *)
Definition quantified (r : regex) (s : text) : option (regex * text) :=
  match quantifier s with
  | Some (lo, hi, s') =>
      match s' with
      | "?"%char :: _ => None
      | _ => match hi with
             | Some h => if h <? lo then None else Some (RRep lo hi r, s')
             | None => Some (RRep lo hi r, s')
             end
      end
  | None =>
      match s with
      | "{"%char :: _ => None
      | _ => Some (r, s)
      end
  end.

(** A disjunction, up to the end of the pattern or to a closing parenthesis
    (which is left in the returned remainder), as the list of its
    alternatives; the head of the list is the alternative being read. *)
Fixpoint disjunction (fuel : nat) (s : text) : option (list regex * text) :=
  match fuel with
  | O => None
  | S fuel' =>
      let continue (t : option (regex * text)) : option (list regex * text) :=
        match t with
        | Some (r, s1) =>
            match disjunction fuel' s1 with
            | Some (a :: alts, s2) => Some (seq r a :: alts, s2)
            | _ => None
            end
        | None => None
        end in
      let group (s1 : text) : option (regex * text) :=
        match disjunction fuel' s1 with
        | Some (alts, ")"%char :: s2) => quantified (alternatives alts) s2
        | _ => None
        end in
      match s with
      | [] => Some ([REmpty], [])
      | ")"%char :: _ => Some ([REmpty], s)
      | "|"%char :: s' =>
          match disjunction fuel' s' with
          | Some (alts, s2) => Some (REmpty :: alts, s2)
          | None => None
          end
      | "("%char :: "?"%char :: ":"%char :: s' => continue (group s')
      | "("%char :: "?"%char :: _ => None
      | "("%char :: s' => continue (group s')
      | "["%char :: s' =>
          continue (match class s' with
                    | Some (r, s1) => quantified r s1
                    | None => None
                    end)
      | "\"%char :: c :: s' =>
          continue (match escape c with
                    | Some (r, true) => quantified r s'
                    | Some (r, false) =>
                        match quantifier s' with
                        | Some _ => None
                        | None => Some (r, s')
                        end
                    | None => None
                    end)
      | "\"%char :: [] => None
      | "."%char :: s' => continue (quantified RAny s')
      | "^"%char :: s' =>
          continue (match quantifier s' with Some _ => None | None => Some (RBol, s') end)
      | "$"%char :: s' =>
          continue (match quantifier s' with Some _ => None | None => Some (REol, s') end)
      | "*"%char :: _ => None
      | "+"%char :: _ => None
      | "?"%char :: _ => None
      | "{"%char :: _ => None
      | c :: s' => continue (quantified (RChar c) s')
      end
  end.

(** [new RegExp(source)]: [None] when the constructor throws.  The reader
    knows the syntax that the patterns of the sources use around names made
    of letters, digits and spaces; for other forms that the constructor
    accepts (a brace that opens no quantifier, lazy quantifiers,
    look-around, identity escapes) it also answers [None]. *)
Definition parseRegExp (source : text) : option regex :=
  match disjunction (S (S (length source))) source with
  | Some (alts, []) => Some (alternatives alts)
  | _ => None
  end.

(** A regular expression literal of the source text: checked when the module
    is loaded, so it cannot throw where it is used. *)
Definition literal (source : string) : regex :=
  match parseRegExp (txt source) with
  | Some r => r
  | None => RClass false []
  end.

End RegExp.

(** * Rational numbers as booleans compare them *)

Definition Qlt_bool (a b : Q) : bool := negb (Qle_bool b a).
Definition Qofnat (n : nat) : Q := inject_Z (Z.of_nat n).
(** ToIntegerOrInfinity followed by the clamp to a non-negative index. *)
Definition Qtrunc (q : Q) : nat := Z.to_nat (Qfloor q).
Definition Qmin (a b : Q) : Q := if Qle_bool a b then a else b.
Definition Qmax (a b : Q) : Q := if Qle_bool a b then b else a.

(** * Plain objects as maps *)

(** sessionContexts, sessionTopics, baseLimits and agentKeywords are plain
    objects.  A read [object[key]] that finds no own property goes on to
    Object.prototype, which has a function under each of its method names
    and itself under [__proto__]. *)
Definition methodNames : list text :=
  map txt [ "constructor"; "hasOwnProperty"; "isPrototypeOf"; "propertyIsEnumerable";
            "toLocaleString"; "toString"; "valueOf";
            "__defineGetter__"; "__defineSetter__";
            "__lookupGetter__"; "__lookupSetter__" ]%string.

Definition objectPrototypeKeys : list text := methodNames ++ [txt "__proto__"].

(** A key under which a read finds an own property or nothing. *)
Definition ordinaryKey (key : text) : bool :=
  negb (existsb (Str.eqb key) objectPrototypeKeys).

(** What a read [object[key]] finds, for an object whose own properties are
    [object] and whose prototype is Object.prototype. *)
Inductive Property (A : Type) :=
| Own (value : A)
| Inherited
| Undefined.

Arguments Own {A} value.
Arguments Inherited {A}.
Arguments Undefined {A}.

Definition getProperty {A} (object : gmap text A) (key : text) : Property A :=
  match object !! key with
  | Some value => Own value
  | None => if ordinaryKey key then Undefined else Inherited
  end.

(** * responseFormatter.ts *)

Module Formatter.
Import Regex RegExp.

Definition nn : text := [Char.nl; Char.nl].

(** The context object handed to applyDynamicLengthAdjustment: the fields of
    global.currentContext read through optional chaining. *)
Record LengthContext := {
  lc_turn : option nat;
  lc_directlyAddressed : option bool;
  lc_userMessage : text
}.

Definition noContext : LengthContext :=
  {| lc_turn := None; lc_directlyAddressed := None; lc_userMessage := [] |}.

Definition erase (ic : bool) (r : regex) (s : text) : text :=
  replaceAll ic r (fun _ => []) s.

Definition replaceWith (ic : bool) (r : regex) (by_ : text) (s : text) : text :=
  replaceAll ic r (fun _ => by_) s.

(** Step 1. *)
Definition aiPrefixes : list text :=
  [ txt "As an AI assistant"; txt "I'll respond as"; txt "I'll help you with";
    txt "I'm responding as"; txt "I am an AI"; txt "As a language model" ].

Definition stripAiPrefix (processed prefix : text) : text :=
  if Str.startsWith (Str.toLowerCase processed) (Str.toLowerCase prefix) then
    match Str.indexOf processed nn with
    | Some endOfPrefix => Str.trim (Str.substringFrom processed endOfPrefix)
    | None => processed
    end
  else processed.

(** Step 3. *)
Definition otherAgentNames : list text :=
  [ txt "Alex"; txt "Clara"; txt "Sam";
    txt "Analyst Alex"; txt "Curious Clara"; txt "Strategic Sam" ].

Fixpoint removeQuestions (names : list text) (processed : text) : option text :=
  match names with
  | [] => Some processed
  | name :: names' =>
      p1 ← parseRegExp (txt "\((?:curious )?question from " ++ name ++ txt "\)[^\n]*");
      p2 ← parseRegExp (name ++ txt " asks:[^\n]*");
      p3 ← parseRegExp (name ++ txt "'s question:[^\n]*");
      removeQuestions names' (erase true p3 (erase true p2 (erase true p1 processed)))
  end.

(** Step 4. *)
Definition selfReferenceVerbs : text :=
  txt " (thinks|believes|says|notes|points out|suggests|agrees|adds|would say)".

Definition removeSelfReferences (agentName firstName processed : text) : option text :=
  p1 ← parseRegExp (agentName ++ selfReferenceVerbs);
  p2 ← parseRegExp (firstName ++ selfReferenceVerbs);
  Some (replaceWith true p2 (txt "I") (replaceWith true p1 (txt "I") processed)).

(** Step 5. *)
Definition rolePrefixes (agentName firstName : text) : list text :=
  [ agentName ++ txt ":"; firstName ++ txt ":"; txt "Assistant:"; txt "AI:" ].

Definition stripRolePrefix (processed prefix : text) : text :=
  if Str.startsWith processed prefix
  then Str.trim (Str.substringFrom processed (length prefix))
  else processed.

(** Step 6. *)
Definition physicalActions : list regex :=
  [ literal "\b(?:lean(?:s|ed|ing))(?: \w+)*(?: (?:forward|back|in|on))";
    literal "\b(?:sit(?:s|ting))(?: \w+)*(?: (?:up|down|back))";
    literal "\b(?:stand(?:s|ing))(?: \w+)*(?: (?:up|back))";
    literal "\b(?:nod(?:s|ding))(?: \w+)*";
    literal "\b(?:smile(?:s|d|ing))(?: \w+)*";
    literal "\b(?:laugh(?:s|ed|ing))(?: \w+)*";
    literal "\b(?:smirk(?:s|ed|ing))(?: \w+)*";
    literal "\b(?:wink(?:s|ed|ing))(?: \w+)*";
    literal "\b(?:gesture(?:s|d|ing))(?: \w+)*";
    literal "\bin (?:his|her|their) chair\b" ].

(** Step 7. The replacement of a joined sentence boundary: the first group is
    the first code unit of the match and the second group its last one. *)
Definition rejoin (m : text) : text :=
  match m, rev m with
  | punct :: _, capital :: _ => [punct; " "%char; capital]
  | _, _ => m
  end.

Definition conjunctions : string := "(And|But|So|Because|However|Therefore|Thus)".

Definition capitalizeFirst (processed : text) : text :=
  match processed with
  | c :: s => if Char.isLowerAZ c then Char.toUpper c :: s else processed
  | [] => processed
  end.

Definition fixFormatting (processed : text) : text :=
  let processed := replaceWith false (literal "\s{2,}") (txt " ") processed in
  let processed := replaceWith false (literal "\n\s*\n\s*\n") nn processed in
  let processed := replaceAll false (literal "([.!?])\s*([A-Z])") rejoin processed in
  let processed :=
    replaceWith false (literal ("\n\s*" ++ conjunctions ++ "\s+")) [Char.nl] processed in
  let processed :=
    replaceFirst false (literal ("^" ++ conjunctions ++ "\s+")) (fun _ => []) processed in
  capitalizeFirst processed.

(** Step 8. *)
Definition correctNames (agentName firstName processed : text) : option text :=
  p1 ← parseRegExp (txt "I, " ++ firstName ++ txt ",");
  p2 ← parseRegExp (txt "I, " ++ agentName ++ txt ",");
  p3 ← parseRegExp (firstName ++ txt " thinks");
  Some (replaceWith false p3 (txt "I")
          (replaceWith false p2 (txt "I") (replaceWith false p1 (txt "I") processed))).

(** [agentName.split(' ')[1] || ''] *)
Definition firstNameOf (agentName : text) : text :=
  match Str.split agentName (txt " ") with
  | _ :: second :: _ => second
  | _ => []
  end.

(** The body of the try block of processResponse up to the length
    adjustment; [None] is an exception thrown on the way. *)
Definition cleanup (responseText agentName : text) : option text :=
  let processed := Str.trim responseText in
  let firstName := firstNameOf agentName in
  let processed := fold_left stripAiPrefix aiPrefixes processed in
  let processed := erase false (literal "\([^)]+\)") processed in
  processed ← removeQuestions otherAgentNames processed;
  processed ← removeSelfReferences agentName firstName processed;
  let processed := fold_left stripRolePrefix (rolePrefixes agentName firstName) processed in
  let processed := fold_left (fun s r => erase true r s) physicalActions processed in
  let processed := fixFormatting processed in
  correctNames agentName firstName processed.

(** ** applyDynamicLengthAdjustment *)

(** [baseLimits[agentName]] for an agent name that is an [ordinaryKey];
    [None] is undefined, for which the source takes 450. *)
Definition baseLimit (agentName : text) : option Q :=
  if Str.eqb agentName (txt "Analyst Alex") then Some 1200%Q
  else if Str.eqb agentName (txt "Curious Clara") then Some 750%Q
  else if Str.eqb agentName (txt "Strategic Sam") then Some 850%Q
  else None.

Definition isAgent (agentName : text) (name : string) : bool :=
  Str.eqb agentName (txt name).

Definition wantsBriefRe : regex := literal "\b(brief|quick|short|simple|summarize|concise)\b".
Definition wantsDetailedRe : regex :=
  literal "\b(detailed|comprehensive|thorough|explain|elaborate|in depth)\b".
Definition complexTopicRe : regex :=
  literal "\b(analysis|complex|difficult|challenging|compare|contrast|debate)\b".
Definition technicalRe : regex :=
  literal "\d%|\d+\.\d+|analysis|data|statistics|evidence|metrics".
Definition sentenceRe : regex := literal ".*[.!?]".

Definition turnOf (context : LengthContext) : nat :=
  match lc_turn context with
  | Some (S n) => S n
  | _ => 1
  end.

Definition isTechnical (responseText : text) : bool := test true technicalRe responseText.

Definition briefResponseChance (context : LengthContext) : Q :=
  let messageLower := Str.toLowerCase (lc_userMessage context) in
  let wantsBrief := test true wantsBriefRe messageLower in
  let wantsDetailed := test true wantsDetailedRe messageLower in
  let isQuestion := Str.includes messageLower (txt "?") in
  let turn := turnOf context in
  let chance := (35 # 100)%Q in
  let chance := if wantsBrief then (chance + (4 # 10))%Q
                else if wantsDetailed then (chance - (25 # 100))%Q else chance in
  let chance := if 3 <? turn
                then (chance + (5 # 100) * Qofnat (Nat.min 3 (turn - 3)))%Q else chance in
  if isQuestion then (chance - (1 # 10))%Q else chance.

(** The budget in code units; [r1] and [r2] are the two draws of
    [Math.random()], in the order the source makes them. *)
Definition charLimit (responseText agentName : text) (context : LengthContext)
  (r1 r2 : Q) : Q :=
  let messageLower := Str.toLowerCase (lc_userMessage context) in
  let wantsDetailed := test true wantsDetailedRe messageLower in
  let isComplexTopic := test true complexTopicRe messageLower in
  let turn := turnOf context in
  let technical := isTechnical responseText in
  let isDirectlyAddressed := default false (lc_directlyAddressed context) in
  let shouldBeBrief := Qlt_bool r1 (briefResponseChance context) in
  let limit := default 450%Q (baseLimit agentName) in
  let limit :=
    if shouldBeBrief then
      if isAgent agentName "Analyst Alex" then (limit * (5 # 10))%Q
      else if isAgent agentName "Curious Clara" then (limit * (6 # 10))%Q
      else (limit * (55 # 100))%Q
    else if wantsDetailed || isComplexTopic then
      if isAgent agentName "Analyst Alex" && technical then (limit * (14 # 10))%Q
      else if isAgent agentName "Curious Clara" then (limit * (13 # 10))%Q
      else (limit * (125 # 100))%Q
    else if isDirectlyAddressed then (limit * (12 # 10))%Q
    else if turn <=? 2 then (limit * (11 # 10))%Q
    else limit in
  let limit :=
    if technical then
      if isAgent agentName "Analyst Alex" then (limit * (115 # 100))%Q
      else if isAgent agentName "Strategic Sam" then (limit * (105 # 100))%Q
      else limit
    else limit in
  (limit * ((85 # 100) + r2 * (3 # 10)))%Q.

(** The paragraph loop of the second approach; [result] is the text built so
    far. *)
Fixpoint keepParagraphs (limit : Q) (result : text) (paragraphs : list text) : text :=
  match paragraphs with
  | [] => result
  | p :: paragraphs' =>
      if Qle_bool (Qofnat (length (result ++ p))) limit then
        keepParagraphs limit (result ++ p ++ nn) paragraphs'
      else
        let remainingChars := (limit - Qofnat (length result))%Q in
        if Qlt_bool 80 remainingChars then
          let partialParagraph := Str.substringTo p (Qtrunc remainingChars) in
          match exec false sentenceRe partialParagraph with
          | Some lastSentence => result ++ lastSentence ++ nn
          | None => result
          end
        else result
  end.

(** The trimming of a response to a budget. *)
Definition fitToLimit (responseText : text) (limit : Q) : text :=
  if Qlt_bool limit (Qofnat (length responseText)) then
    let truncated := Str.substringTo responseText (Qtrunc limit) in
    match exec false sentenceRe truncated with
    | Some m =>
        if Qlt_bool (limit * (5 # 10)) (Qofnat (length m)) then Str.trim m
        else Str.trim (keepParagraphs limit [] (Str.split responseText nn))
    | None => Str.trim (keepParagraphs limit [] (Str.split responseText nn))
    end
  else responseText.

Definition applyDynamicLengthAdjustment (responseText agentName : text)
  (context : LengthContext) (r1 r2 : Q) : text :=
  fitToLimit responseText (charLimit responseText agentName context r1 r2).

(** ** processResponse *)

(** With the two random draws given. *)
Definition processResponseWith (responseText agentName : text)
  (context : LengthContext) (r1 r2 : Q) : text :=
  match cleanup responseText agentName with
  | Some processed => applyDynamicLengthAdjustment processed agentName context r1 r2
  | None => responseText
  end.

(** With the stream of draws and its cursor: the result and the new cursor. *)
Definition processResponse (responseText agentName : text)
  (context : LengthContext) (random : nat -> Q) (cursor : nat) : text * nat :=
  match cleanup responseText agentName with
  | Some processed =>
      (applyDynamicLengthAdjustment processed agentName context
         (random cursor) (random (S cursor)), S (S cursor))
  | None => (responseText, cursor)
  end.

End Formatter.

(** * types.ts *)

Inductive Role := user | assistant | system.

#[global] Instance Role_eq_dec : EqDecision Role.
Proof. solve_decision. Defined.

(** An entry of messageHistory; [name] is set on assistant entries. *)
Record HistoryEntry := {
  role : Role;
  content : text;
  name : option text
}.

Record AgentResponse := {
  agent : text;
  message : text
}.

Record ConversationContext := {
  turn : option nat;
  lastAgent : option text;
  userMessage : option text;
  lastUserMessage : option text;
  messageHistory : list HistoryEntry;
  directlyAddressed : bool
}.

(** Truthiness of an optional string: defined and not empty. *)
Definition truthy (o : option text) : bool :=
  match o with
  | Some (_ :: _) => true
  | _ => false
  end.

(** * Math.random *)

(** A computation that reads the stream of draws at a cursor and returns the
    cursor after its last draw. *)
Definition Rand (A : Type) : Type := (nat -> Q) -> nat -> A * nat.

#[global] Instance Rand_ret : MRet Rand := fun A a _ i => (a, i).
#[global] Instance Rand_bind : MBind Rand :=
  fun A B f m random i => let '(a, j) := m random i in f a random j.

(** [Math.random()] *)
Definition draw : Rand Q := fun random i => (random i, S i).

(** * agentSelector.ts *)

Module AgentSelector.
Import Regex RegExp.

Definition solanaAddressRegex : regex := literal "\b[1-9A-HJ-NP-Za-km-z]{32,44}\b".

Definition blockchainKeywords : list text :=
  map txt ["wallet"; "token"; "solana"; "blockchain"; "crypto"]%string.

Definition AnalystAlex : text := txt "Analyst Alex".
Definition CuriousClara : text := txt "Curious Clara".
Definition StrategicSam : text := txt "Strategic Sam".

(** [agent.split(' ')[1]?.toLowerCase()] *)
Definition firstNameLower (agent : text) : option text :=
  match Str.split agent (txt " ") with
  | _ :: second :: _ => Some (Str.toLowerCase second)
  | _ => None
  end.

Definition directPatterns (firstName : text) : option (list regex) :=
  p1 ← parseRegExp (txt "\b" ++ firstName ++ txt ",\s");
  p2 ← parseRegExp (txt "\b" ++ firstName ++ txt ":\s");
  p3 ← parseRegExp (txt "\bask\s+" ++ firstName ++ txt "\b");
  p4 ← parseRegExp (txt "\b" ++ firstName ++ txt "\s+please\b");
  p5 ← parseRegExp (txt "\bhey\s+" ++ firstName ++ txt "\b");
  p6 ← parseRegExp (txt "\bwhat\s+(?:do|does|would)\s+" ++ firstName ++ txt "\s+think");
  Some [p1; p2; p3; p4; p5; p6].

Definition isMember (a : text) (l : list text) : bool := existsb (Str.eqb a) l.

(** The loop of getExplicitlyMentionedAgents; [mentionedAgents] is the array
    built so far, [None] a SyntaxError from a pattern. *)
Fixpoint mentionLoop (messageLower : text) (agents : list text) (mentionedAgents : list text)
  : option (list text) :=
  match agents with
  | [] => Some mentionedAgents
  | agent :: agents' =>
      let agentLower := Str.toLowerCase agent in
      match firstNameLower agent with
      | Some ((_ :: _) as firstName) =>
          if Str.startsWith messageLower (firstName ++ txt ",")
             || Str.startsWith messageLower (firstName ++ txt ":")
             || Str.startsWith messageLower (agentLower ++ txt ",")
             || Str.startsWith messageLower (agentLower ++ txt ":")
          then mentionLoop messageLower agents' (mentionedAgents ++ [agent])
          else
            patterns ← directPatterns firstName;
            let mentionedAgents :=
              if existsb (fun pattern => test true pattern messageLower) patterns
              then mentionedAgents ++ [agent] else mentionedAgents in
            let mentionedAgents :=
              if negb (isMember agent mentionedAgents)
                 && (Str.includes messageLower firstName || Str.includes messageLower agentLower)
                 && Str.includes messageLower (txt "?")
              then mentionedAgents ++ [agent] else mentionedAgents in
            mentionLoop messageLower agents' mentionedAgents
      | _ => mentionLoop messageLower agents' mentionedAgents
      end
  end.

Definition getExplicitlyMentionedAgents (messageLower : text) (availableAgents : list text)
  : option (list text) :=
  mentionLoop messageLower availableAgents [].

Definition comprehensiveTerms : list text :=
  map txt ["everyone"; "all"; "each"; "debate"; "discuss"; "perspectives"]%string.
Definition focusedTerms : list text :=
  map txt ["briefly"; "quick"; "short"; "simple"; "just one"]%string.

Definition includesAny (s : text) (terms : list text) : bool :=
  existsb (Str.includes s) terms.

(** [context.turn || 1] *)
Definition turnOr1 (context : ConversationContext) : nat :=
  match turn context with
  | Some (S n) => S n
  | _ => 1
  end.

Definition determineResponseCount (context : ConversationContext) (message : text)
  : Rand nat :=
  let turn := turnOr1 context in
  if turn <=? 2 then mret 3
  else if includesAny message comprehensiveTerms then mret 3
  else if includesAny message focusedTerms then mret 1
  else
    let singleAgentChance := Qmin (4 # 10) ((15 # 100) + Qofnat turn * (5 # 100))%Q in
    r1 ← draw;
    if Qlt_bool r1 singleAgentChance then mret 1
    else
      let twoAgentChance := Qmin (5 # 10) ((2 # 10) + Qofnat turn * (3 # 100))%Q in
      r2 ← draw;
      if Qlt_bool r2 twoAgentChance then mret 2 else mret 3.

(** [agentKeywords[agent] || []] for an agent name that is an [ordinaryKey]. *)
Definition agentKeywords (agent : text) : list text :=
  if Str.eqb agent AnalystAlex then
    map txt [ "data"; "analysis"; "statistics"; "numbers"; "research"; "evidence"; "metrics";
              "probability"; "risks"; "facts"; "study"; "report"; "measure"; "quantify";
              "costs"; "investment"; "budget"; "finance"; "economic"; "economy"; "market";
              "price"; "profit"; "revenue"; "growth"; "forecast"; "projection"; "trend";
              "technical"; "calculation"; "algorithm"; "model"; "estimate"; "precision";
              "accurate"; "analytical"; "breakdown"; "comparison"; "correlation";
              "statistics" ]%string
  else if Str.eqb agent CuriousClara then
    map txt [ "creative"; "innovation"; "imagine"; "possibility"; "idea"; "what if";
              "future"; "design"; "different"; "curious"; "dream"; "alternative";
              "wonder"; "create"; "invent"; "inspire"; "transform"; "reimagine";
              "experiment"; "explore"; "discover"; "question"; "challenge"; "possibility";
              "potential"; "unprecedented"; "unconventional"; "unusual"; "outside the box";
              "could"; "might"; "may"; "perhaps"; "possibly"; "imagine"; "consider";
              "theoretically"; "hypothetically"; "creatively"; "wildly"; "brainstorm" ]%string
  else if Str.eqb agent StrategicSam then
    map txt [ "plan"; "strategy"; "implementation"; "decision"; "approach"; "goal";
              "objective"; "next steps"; "roadmap"; "action"; "practical"; "solution";
              "execute"; "prioritize"; "timeline"; "milestone"; "coordinate"; "organize";
              "manage"; "lead"; "direct"; "guide"; "align"; "streamline"; "implement";
              "realistic"; "effective"; "efficient"; "practical"; "achievable"; "tangible";
              "concrete"; "step-by-step"; "systematic"; "structured"; "method"; "process";
              "framework"; "best practice"; "recommendation"; "priority"; "tradeoff" ]%string
  else [].

(** The weight of one keyword: 0 when it does not occur. *)
Definition positionWeight (messageLower keyword : text) : Q :=
  match Str.indexOf messageLower keyword with
  | Some keywordIndex =>
      Qmax (5 # 10)
           (1 - Qofnat keywordIndex / Qofnat (Nat.min 100 (length messageLower)))%Q
  | None => 0%Q
  end.

Definition keywordScore (messageLower : text) (keywords : list text) : Q :=
  fold_left (fun score keyword => (score + positionWeight messageLower keyword)%Q) keywords 0%Q.

(** [messageHistory.slice(-6)] *)
Definition lastSix (h : list HistoryEntry) : list HistoryEntry :=
  drop (length h - 6) h.

Definition spokeRecently (context : ConversationContext) (agent : text) : nat :=
  length (filter (fun msg => role msg = assistant ∧ name msg = Some agent)
                 (lastSix (messageHistory context))).

Definition scoreAgent (messageLower : text) (context : ConversationContext) (agent : text)
  : Rand (text * Q) :=
  let score := keywordScore messageLower (agentKeywords agent) in
  let score := if bool_decide (Some agent = lastAgent context)
               then (score - (25 # 10))%Q else score in
  let score := if spokeRecently context agent =? 0
               then (score + (15 # 10))%Q else score in
  r ← draw;
  mret (agent, (score + r * (3 # 10))%Q).

Fixpoint scoreAgents (messageLower : text) (context : ConversationContext)
  (agents : list text) : Rand (list (text * Q)) :=
  match agents with
  | [] => mret []
  | agent :: agents' =>
      scored ← scoreAgent messageLower context agent;
      others ← scoreAgents messageLower context agents';
      mret (scored :: others)
  end.

(** [Array.prototype.sort] with the comparator of the source (higher score
    first) is stable: an element goes behind those that do not score lower. *)
Fixpoint insertByScore (x : text * Q) (l : list (text * Q)) : list (text * Q) :=
  match l with
  | [] => [x]
  | y :: l' => if Qlt_bool (snd y) (snd x) then x :: l else y :: insertByScore x l'
  end.

Definition sortByScore (l : list (text * Q)) : list (text * Q) :=
  fold_left (fun sorted x => insertByScore x sorted) l [].

Definition rankAgentsByRelevance (messageLower : text) (availableAgents : list text)
  (context : ConversationContext) : Rand (list text) :=
  agentScores ← scoreAgents messageLower context availableAgents;
  mret (map fst (sortByScore agentScores)).

(** The transition table, in the order of its keys. *)
Definition relationshipPatterns (lastAgent : text) : option (list (text * Q)) :=
  if Str.eqb lastAgent AnalystAlex then
    Some [ (CuriousClara, 75 # 100); (StrategicSam, 5 # 10) ]
  else if Str.eqb lastAgent CuriousClara then
    Some [ (StrategicSam, 8 # 10); (AnalystAlex, 4 # 10) ]
  else if Str.eqb lastAgent StrategicSam then
    Some [ (AnalystAlex, 6 # 10); (CuriousClara, 5 # 10) ]
  else None.

Definition moveToFront (follower : text) (baseOrder : list text) : list text :=
  follower :: filter (fun agent => agent ≠ follower) baseOrder.

(** The loop over the potential followers. *)
Fixpoint followerLoop (lastAgent : text) (baseOrder : list text)
  (followers : list (text * Q)) : Rand (list text) :=
  match followers with
  | [] => mret baseOrder
  | (follower, likelihood) :: followers' =>
      if isMember follower baseOrder then
        r ← draw;
        if Qlt_bool r likelihood && negb (Str.eqb follower lastAgent)
        then mret (moveToFront follower baseOrder)
        else followerLoop lastAgent baseOrder followers'
      else followerLoop lastAgent baseOrder followers'
  end.

(** [context.turn < 2], false for an undefined turn. *)
Definition turnBelow2 (context : ConversationContext) : bool :=
  match turn context with
  | Some n => n <? 2
  | None => false
  end.

(** [Math.random() > 0.6]: the draws at which the table is not consulted. *)
Definition skipsReordering (r : Q) : bool := Qlt_bool (6 # 10) r.

Definition applyRelationshipBasedOrdering (baseOrder : list text)
  (context : ConversationContext) : Rand (list text) :=
  match lastAgent context with
  | Some ((_ :: _) as lastAgent) =>
      if (length baseOrder <? 2) || turnBelow2 context then mret baseOrder
      else
        r ← draw;
        if skipsReordering r then mret baseOrder
        else
          match relationshipPatterns lastAgent with
          | None => mret baseOrder
          | Some patterns => followerLoop lastAgent baseOrder patterns
          end
  | _ => mret baseOrder
  end.

(** [context.turn > 1] *)
Definition turnAbove1 (context : ConversationContext) : bool :=
  match turn context with
  | Some n => 1 <? n
  | None => false
  end.

(** selectAgents; the inner [None] is a thrown SyntaxError. *)
Definition selectAgents (message : text) (availableAgents : list text)
  (context : ConversationContext) : Rand (option (list text)) :=
  if negb (Str.truthy message) || (length availableAgents =? 0) then
    mret (Some availableAgents)
  else
    let messageLower := Str.toLowerCase message in
    let hasAddress := test false solanaAddressRegex messageLower in
    let hasBlockchainKeywords := includesAny messageLower blockchainKeywords in
    if (hasAddress || hasBlockchainKeywords) && isMember AnalystAlex availableAgents then
      mret (Some (AnalystAlex :: filter (fun agent => agent ≠ AnalystAlex) availableAgents))
    else
      match getExplicitlyMentionedAgents messageLower availableAgents with
      | None => mret None
      | Some ((_ :: _) as mentionedAgents) => mret (Some mentionedAgents)
      | Some [] =>
          responseCount ← determineResponseCount context messageLower;
          rankedAgents ← rankAgentsByRelevance messageLower availableAgents context;
          let selectedAgents := take responseCount rankedAgents in
          if turnAbove1 context then
            selectedAgents ← applyRelationshipBasedOrdering selectedAgents context;
            mret (Some selectedAgents)
          else mret (Some selectedAgents)
      end.

(** The patterns of identifyRecommendedNextAgent for one first name (as it
    is written in the agent name, not in lower case). *)
Definition handoffPatterns (firstName : text) : option (list regex) :=
  p1 ← parseRegExp (firstName ++ txt ",\s*what do you think");
  p2 ← parseRegExp (firstName ++ txt ",\s*(?:your|any) thoughts");
  p3 ← parseRegExp (txt "What do you think,\s*" ++ firstName);
  p4 ← parseRegExp (firstName ++ txt "\?");
  p5 ← parseRegExp (txt "(?:over to|back to) you,?\s*" ++ firstName);
  p6 ← parseRegExp (firstName
                    ++ txt ",\s*(?:would you like to|care to) (?:add|comment|share)");
  p7 ← parseRegExp (txt "I'd like to hear from\s*" ++ firstName);
  p8 ← parseRegExp (firstName ++ txt " might (?:have|know|add)");
  Some [p1; p2; p3; p4; p5; p6; p7; p8].

(** [agent.split(' ')[1]] *)
Definition firstNameRaw (agent : text) : option text :=
  match Str.split agent (txt " ") with
  | _ :: second :: _ => Some second
  | _ => None
  end.

(** The loop of identifyRecommendedNextAgent over the other agents: the
    outer [None] is a SyntaxError from a pattern, the inner one is null. *)
Fixpoint handoffLoop (responseText : text) (otherAgents : list text)
  : option (option text) :=
  match otherAgents with
  | [] => Some None
  | agent :: otherAgents' =>
      match firstNameRaw agent with
      | Some ((_ :: _) as firstName) =>
          patterns ← handoffPatterns firstName;
          if existsb (fun pattern => test true pattern responseText) patterns
          then Some (Some agent)
          else handoffLoop responseText otherAgents'
      | _ => handoffLoop responseText otherAgents'
      end
  end.

Definition identifyRecommendedNextAgent (responseText currentAgent : text)
  (availableAgents : list text) : option (option text) :=
  handoffLoop responseText (filter (fun a => a ≠ currentAgent) availableAgents).

End AgentSelector.

(** * chatWorkflowManager.ts *)

Module ChatWorkflowManager.
Import Regex RegExp.

(** ** Runtimes *)

(** What one call of generateText does: it resolves with a text or it
    rejects. *)
Inductive Generated :=
| Returned (t : text)
| Threw.

(** The fields of a character that the manager reads. *)
Record Character := {
  char_name : text;
  char_system : option text
}.

(** [generateText] is [None] when the provider has no such function;
    otherwise it maps the number of the call (counted over the whole process,
    so a provider may answer differently each time) and the prompt to the
    outcome.  The model options passed along are left out. *)
Record ModelProvider := {
  generateText : option (nat -> text -> Generated)
}.

Record Runtime := {
  character : option Character;
  modelProvider : option ModelProvider
}.

(** The runtimes object: its keys in insertion order and their values. *)
Definition Runtimes := list (text * Runtime).

Definition keys (runtimes : Runtimes) : list text := map fst runtimes.

Fixpoint lookupRuntime (runtimes : Runtimes) (agentName : text) : option Runtime :=
  match runtimes with
  | [] => None
  | (k, r) :: runtimes' =>
      if Str.eqb k agentName then Some r else lookupRuntime runtimes' agentName
  end.

Definition defaultAgentSequence : list text :=
  [ txt "Analyst Alex"; txt "Curious Clara"; txt "Strategic Sam" ].

(** ** The state of the process *)

Record Topics := {
  currentTopic : text;
  previousTopics : list text
}.

(** [currentContext] is global.currentContext: the session whose context
    object the global refers to.  The cursors count the calls made so far to
    Math.random, Date.now and generateText; [selectAgentsCalls] counts the
    calls of AgentSelector.selectAgents.  The two maps hold the own
    properties of the objects; Object.prototype is as the engine made it
    (no turn has written to it through a session named [__proto__]). *)
Record World := {
  sessionContexts : gmap text ConversationContext;
  sessionTopics : gmap text Topics;
  currentContext : option text;
  randomCursor : nat;
  clockCursor : nat;
  generateCalls : nat;
  selectAgentsCalls : nat
}.

Definition initialWorld : World :=
  {| sessionContexts := ∅; sessionTopics := ∅; currentContext := None;
     randomCursor := 0; clockCursor := 0; generateCalls := 0; selectAgentsCalls := 0 |}.

(** The outside of the process: the draws of Math.random and the readings of
    Date.now, by call number. *)
Record Env := {
  random : nat -> Q;
  now : nat -> nat
}.

Definition newContext : ConversationContext :=
  {| turn := Some 0; lastAgent := None; userMessage := None; lastUserMessage := None;
     messageHistory := []; directlyAddressed := false |}.

(** getOrCreateContext for a session id that is an [ordinaryKey]: the read
    this.sessionContexts[sessionId] is then the lookup among the own
    properties.  [MethodSession] has the other case. *)
Definition getOrCreateContext (contexts : gmap text ConversationContext) (sessionId : text)
  : gmap text ConversationContext * ConversationContext :=
  match contexts !! sessionId with
  | Some context => (contexts, context)
  | None => (<[sessionId := newContext]> contexts, newContext)
  end.

(** ** Topic changes *)

Definition topicChangeCues : list text :=
  map txt ["new topic"; "different topic"; "change subject"]%string.

(** The distinct words of more than three code units. *)
Definition longWords (s : text) : list text :=
  remove_dups (filter (fun w => 3 < length w) (split false (literal "\W+") s)).

Definition isNewTopic (currentMessage lastMessage : text) : bool :=
  if negb (Str.truthy lastMessage) then false
  else
    let messageLower := Str.toLowerCase currentMessage in
    if existsb (Str.includes messageLower) topicChangeCues then true
    else
      let currentWords := longWords messageLower in
      let lastWords := longWords (Str.toLowerCase lastMessage) in
      let intersection := filter (fun x => x ∈ lastWords) currentWords in
      let size := match length currentWords with O => 1 | n => n end in
      let similarity := (Qofnat (length intersection) / Qofnat size)%Q in
      Qlt_bool similarity (15 # 100).

Definition topicChangeMarker : HistoryEntry :=
  {| role := system; content := txt "--- Topic change ---"; name := None |}.

Definition pushHistory (entry : HistoryEntry) (context : ConversationContext)
  : ConversationContext :=
  {| turn := turn context; lastAgent := lastAgent context;
     userMessage := userMessage context; lastUserMessage := lastUserMessage context;
     messageHistory := messageHistory context ++ [entry];
     directlyAddressed := directlyAddressed context |}.

Definition topicChanged (message : text) (context : ConversationContext) : bool :=
  match lastUserMessage context with
  | Some ((_ :: _) as lastMessage) => isNewTopic message lastMessage
  | _ => false
  end.

(** handleTopicChange, on the context of the session, its topics and the
    clock: the new context, topics and clock cursor.  [topics] is the read
    this.sessionTopics[sessionId] for a session id that is an [ordinaryKey];
    [MethodSession] has the other case. *)
Definition handleTopicChange (env : Env) (message : text)
  (context : ConversationContext) (topics : option Topics) (clock : nat)
  : ConversationContext * Topics * nat :=
  let topics := default {| currentTopic := txt "general"; previousTopics := [] |} topics in
  if topicChanged message context then
    (pushHistory topicChangeMarker context,
     {| currentTopic := txt "topic-" ++ Str.ofNat (now env clock);
        previousTopics := previousTopics topics ++ [currentTopic topics] |},
     S clock)
  else (context, topics, clock).

(** ** Who responds *)

Definition addressed (messageLower : text) (agent : text) : bool :=
  let fullName := Str.toLowerCase agent in
  match AgentSelector.firstNameLower agent with
  | Some ((_ :: _) as firstName) =>
      Str.startsWith messageLower firstName
      || Str.includes messageLower (firstName ++ txt ",")
      || Str.includes messageLower (firstName ++ txt ":")
      || Str.includes messageLower (fullName ++ txt ",")
      || Str.includes messageLower (fullName ++ txt ":")
  | _ => false
  end.

Fixpoint addressLoop (messageLower : text) (agents : list text) (addressedAgents : list text)
  : list text :=
  match agents with
  | [] => addressedAgents
  | agent :: agents' =>
      if addressed messageLower agent
      then addressLoop messageLower agents' (addressedAgents ++ [agent])
      else addressLoop messageLower agents' addressedAgents
  end.

Definition getDirectlyAddressedAgents (message : text) (availableAgents : list text)
  : list text :=
  addressLoop (Str.toLowerCase message) availableAgents [].

Definition setDirectlyAddressed (context : ConversationContext) : ConversationContext :=
  {| turn := turn context; lastAgent := lastAgent context;
     userMessage := userMessage context; lastUserMessage := lastUserMessage context;
     messageHistory := messageHistory context;
     directlyAddressed := true |}.

Definition availableAgents (runtimes : Runtimes) : list text :=
  filter (fun name => AgentSelector.isMember name (keys runtimes) = true) defaultAgentSequence.

(** What determineRespondingAgents leaves behind: the agents ([None] when
    selectAgents threw), the context, the cursor of Math.random and the
    number of calls of selectAgents it made. *)
Record Determined := {
  respondingAgents : option (list text);
  det_context : ConversationContext;
  det_cursor : nat;
  det_selectorCalls : nat
}.

Definition determineRespondingAgents (env : Env) (runtimes : Runtimes) (message : text)
  (context : ConversationContext) (cursor : nat) : Determined :=
  let availableAgents := availableAgents runtimes in
  if length availableAgents =? 0 then
    {| respondingAgents := Some (take 3 (keys runtimes));
       det_context := context; det_cursor := cursor; det_selectorCalls := 0 |}
  else
    let directlyAddressedAgents := getDirectlyAddressedAgents message availableAgents in
    if 0 <? length directlyAddressedAgents then
      let context := setDirectlyAddressed context in
      if (length directlyAddressedAgents =? 1)
         && negb (Str.includes (Str.toLowerCase message) (txt "everyone"))
         && negb (Str.includes (Str.toLowerCase message) (txt "all"))
      then
        {| respondingAgents := Some directlyAddressedAgents;
           det_context := context; det_cursor := cursor; det_selectorCalls := 0 |}
      else
        {| respondingAgents := Some directlyAddressedAgents;
           det_context := context; det_cursor := cursor; det_selectorCalls := 0 |}
    else
      let '(selected, cursor') :=
        AgentSelector.selectAgents message availableAgents context (random env) cursor in
      {| respondingAgents := selected;
         det_context := context; det_cursor := cursor'; det_selectorCalls := 1 |}.

(** ** The prompt *)

Definition line (s : string) : text := txt s ++ [Char.nl].

Definition styleBlock (agentName : text) : text :=
  if Str.eqb agentName (txt "Analyst Alex") then
    line "IMPORTANT: Start by directly answering the question with data or facts in 1-2 sentences. Then briefly add context."
    ++ line "Your style is typically data-focused and precise, with a touch of dry humor or skepticism:"
    ++ line "- You generally prefer facts and evidence over speculation"
    ++ line "- You use examples, statistics, or data points when possible"
    ++ line "- You can be skeptical and slightly sarcastic at times"
    ++ line "- You challenge unfounded claims and assumptions"
    ++ line "- Your responses should be concise and to the point" ++ [Char.nl]
  else if Str.eqb agentName (txt "Curious Clara") then
    line "IMPORTANT: First answer the specific question asked, then explore creative possibilities."
    ++ line "Your style is creative, inquisitive, and energetic:"
    ++ line "- You enjoy exploring unconventional ideas and possibilities"
    ++ line "- You naturally challenge assumptions and traditional thinking"
    ++ line "- You bring energy and enthusiasm to your responses"
    ++ line "- You see connections others might miss"
    ++ line "- Your thinking is flexible but remains focused on the actual question" ++ [Char.nl]
  else if Str.eqb agentName (txt "Strategic Sam") then
    line "IMPORTANT: Begin with a clear, direct answer to the question, then provide practical next steps."
    ++ line "Your style is practical, solution-oriented, and decisive:"
    ++ line "- You focus on actionable insights and implementation"
    ++ line "- You synthesize others' ideas into coherent approaches"
    ++ line "- You're direct and decisive in your recommendations"
    ++ line "- You consider both short and long-term implications"
    ++ line "- You're pragmatic and focused on real-world application" ++ [Char.nl]
  else [].

Definition rosterBlock (agentName : text) : text :=
  (if Str.eqb agentName (txt "Analyst Alex") then []
   else line "- Alex: analytical, data-focused, occasionally sarcastic")
  ++ (if Str.eqb agentName (txt "Curious Clara") then []
      else line "- Clara: creative, asks thought-provoking questions, imaginative")
  ++ (if Str.eqb agentName (txt "Strategic Sam") then []
      else line "- Sam: practical, solution-oriented, synthesizes ideas").

Definition formatBlock : text :=
  line "IMPORTANT FORMAT INSTRUCTIONS: This is a text-only chat conversation. DO NOT include:"
  ++ line "- Stage directions in parentheses like (smiles), (pauses), or (thinks)"
  ++ line "- Physical actions, facial expressions, or body language"
  ++ line "- References to yourself in the third person"
  ++ line "- Made-up questions or comments from other participants" ++ [Char.nl]
  ++ line "Simply respond directly in first person as yourself in a natural conversational style."
  ++ [Char.nl].

Definition guidanceBlock : text :=
  line "Guidelines for your response:"
  ++ line "- Answer the specific question directly before adding extra context"
  ++ line "- Vary your response length - sometimes brief (1-2 sentences), sometimes more detailed"
  ++ line "- You may occasionally disagree with other participants in a respectful way"
  ++ line "- Focus on adding new insights rather than repeating what's been said" ++ [Char.nl].

Definition relationshipLine (agentName : text) (previousResponses : list AgentResponse)
  : text :=
  match last previousResponses with
  | None => []
  | Some previous =>
      let lastAgent := agent previous in
      if Str.eqb agentName (txt "Curious Clara") && Str.eqb lastAgent (txt "Analyst Alex") then
        line "Challenge Alex's data-focused perspective by suggesting an unconventional angle he may have missed."
      else if Str.eqb agentName (txt "Strategic Sam") && Str.eqb lastAgent (txt "Curious Clara") then
        line "Ground Clara's creative ideas with practical implementation steps or limitations."
      else if Str.eqb agentName (txt "Analyst Alex") && Str.eqb lastAgent (txt "Strategic Sam") then
        line "Add statistical context or question assumptions in Sam's strategic approach."
      else []
  end.

(** [response.agent.split(' ')[1] || response.agent] *)
Definition shortName (agentName : text) : text :=
  match Str.split agentName (txt " ") with
  | _ :: ((_ :: _) as second) :: _ => second
  | _ => agentName
  end.

Definition transcript (previousResponses : list AgentResponse) : text :=
  concat (map (fun response =>
                 shortName (agent response) ++ txt ": " ++ message response
                 ++ [Char.nl; Char.nl])
              previousResponses).

Definition conversationBlock (message : text) (character : Character)
  (previousResponses : list AgentResponse) : text :=
  match previousResponses with
  | [] =>
      txt "Respond to this message: " ++ [Char.quote] ++ message ++ [Char.quote]
      ++ [Char.nl; Char.nl]
  | _ =>
      txt "The user asked: " ++ [Char.quote] ++ message ++ [Char.quote] ++ [Char.nl; Char.nl]
      ++ line "The conversation so far:"
      ++ transcript previousResponses
      ++ txt "Your turn to respond as " ++ char_name character ++ txt ":" ++ [Char.nl]
  end.

(** buildAgentPrompt; [None] is a thrown error (no runtime for the agent, or
    a runtime without a character). *)
Definition buildAgentPrompt (runtimes : Runtimes) (message agentName : text)
  (previousResponses : list AgentResponse) : option text :=
  runtime ← lookupRuntime runtimes agentName;
  character ← character runtime;
  Some (txt "You are " ++ char_name character ++ txt "." ++ [Char.nl]
        ++ match char_system character with
           | Some ((_ :: _) as sys) => sys ++ [Char.nl; Char.nl]
           | _ => [Char.nl]
           end
        ++ styleBlock agentName
        ++ line "You're having a casual conversation with:"
        ++ rosterBlock agentName
        ++ [Char.nl]
        ++ formatBlock
        ++ guidanceBlock
        ++ relationshipLine agentName previousResponses
        ++ conversationBlock message character previousResponses).

(** ** Generation with retry *)

Definition MAX_ATTEMPTS : nat := 2.

(** The retry loop: [attempts] counts the attempts that remain; the result is
    the text obtained ([None] when every attempt threw or came back empty)
    and the number of calls of generateText made so far. *)
Fixpoint generateWithRetry (generate : nat -> text -> Generated) (prompt : text)
  (attempts : nat) (calls : nat) : option text * nat :=
  match attempts with
  | O => (None, calls)
  | S attempts' =>
      match generate calls prompt with
      | Returned ((_ :: _) as responseText) => (Some responseText, S calls)
      | Returned [] => generateWithRetry generate prompt attempts' (S calls)
      | Threw => generateWithRetry generate prompt attempts' (S calls)
      end
  end.

Definition fallbackResponse : text := txt "I need more time to think about this.".
Definition troubleResponse : text :=
  txt "I'm having trouble processing your request right now.".
Definition systemFallback : AgentResponse :=
  {| agent := txt "System";
     message := txt "Our agents were unable to process your request. Please try again." |}.

(** ** processMessage *)

(** The function of a usable runtime: [None] when the agent is skipped. *)
Definition usableGenerator (runtimes : Runtimes) (agentName : text)
  : option (nat -> text -> Generated) :=
  runtime ← lookupRuntime runtimes agentName;
  provider ← modelProvider runtime;
  generateText provider.

Definition setLastAgent (o : option text) (context : ConversationContext)
  : ConversationContext :=
  {| turn := turn context; lastAgent := o;
     userMessage := userMessage context; lastUserMessage := lastUserMessage context;
     messageHistory := messageHistory context;
     directlyAddressed := directlyAddressed context |}.

(** The fields of global.currentContext that processResponse reads; the
    global is the context object of the session being processed. *)
Definition lengthContext (context : ConversationContext) : Formatter.LengthContext :=
  {| Formatter.lc_turn := turn context;
     Formatter.lc_directlyAddressed := Some (directlyAddressed context);
     Formatter.lc_userMessage := default [] (userMessage context) |}.

(** What the loop over the responding agents carries. *)
Record Progress := {
  pr_context : ConversationContext;
  pr_responses : list AgentResponse;
  pr_randomCursor : nat;
  pr_generateCalls : nat
}.

(** One iteration of the loop. *)
Definition processAgent (env : Env) (runtimes : Runtimes) (message agentName : text)
  (st : Progress) : Progress :=
  match usableGenerator runtimes agentName with
  | None => st
  | Some generate =>
      let context :=
        setLastAgent (option_map agent (last (pr_responses st))) (pr_context st) in
      match buildAgentPrompt runtimes message agentName (pr_responses st) with
      | None =>
          {| pr_context := context;
             pr_responses := pr_responses st
                             ++ [{| agent := agentName; message := troubleResponse |}];
             pr_randomCursor := pr_randomCursor st;
             pr_generateCalls := pr_generateCalls st |}
      | Some prompt =>
          let '(generated, calls) :=
            generateWithRetry generate prompt MAX_ATTEMPTS (pr_generateCalls st) in
          let responseText := default fallbackResponse generated in
          let '(responseText, cursor) :=
            Formatter.processResponse responseText agentName (lengthContext context)
              (random env) (pr_randomCursor st) in
          let characterName :=
            match lookupRuntime runtimes agentName with
            | Some {| character := Some c |} => char_name c
            | _ => agentName
            end in
          {| pr_context :=
               pushHistory {| role := assistant; content := responseText;
                              name := Some agentName |} context;
             pr_responses := pr_responses st
                             ++ [{| agent := characterName; message := responseText |}];
             pr_randomCursor := cursor;
             pr_generateCalls := calls |}
      end
  end.

Definition processAgents (env : Env) (runtimes : Runtimes) (message : text)
  (agents : list text) (st : Progress) : Progress :=
  fold_left (fun st agentName => processAgent env runtimes message agentName st) agents st.

(** The updates of the context between the topic check and the choice of the
    agents. *)
Definition recordUserMessage (message : text) (context : ConversationContext)
  : ConversationContext :=
  {| turn := Some (default 0 (turn context) + 1);
     lastAgent := lastAgent context;
     userMessage := Some message;
     lastUserMessage := userMessage context;
     messageHistory :=
       messageHistory context ++ [{| role := user; content := message; name := None |}];
     directlyAddressed := directlyAddressed context |}.

(** What a turn has done when the agents are about to be chosen: the request
    identifier has taken one reading of the clock and one draw, the context
    of the session exists, the topic check has run and the user message is
    recorded. *)
Record Begun := {
  bg_contexts : gmap text ConversationContext;
  bg_context : ConversationContext;
  bg_topics : Topics;
  bg_clock : nat
}.

Definition beginTurn (env : Env) (message sessionId : text) (w : World) : Begun :=
  let '(contexts, context) := getOrCreateContext (sessionContexts w) sessionId in
  let '(context, topics, clock) :=
    handleTopicChange env message context (sessionTopics w !! sessionId)
      (S (clockCursor w)) in
  {| bg_contexts := contexts;
     bg_context := recordUserMessage message context;
     bg_topics := topics;
     bg_clock := clock |}.

(** The choice of the agents that processMessage makes. *)
Definition resolveOrder (env : Env) (runtimes : Runtimes) (message sessionId : text)
  (w : World) : Determined :=
  determineRespondingAgents env runtimes message
    (bg_context (beginTurn env message sessionId w)) (S (randomCursor w)).

(** The outcome of the promise that processMessage returns; a rejection
    carries the message of the error. *)
Inductive Outcome :=
| Resolved (responses : list AgentResponse)
| Rejected (reason : text).

Definition orSystemFallback (responses : list AgentResponse) : list AgentResponse :=
  match responses with
  | [] => [systemFallback]
  | _ => responses
  end.

(** processMessage: the outcome and the state it leaves. *)
Definition processMessage (env : Env) (runtimes : Runtimes) (message sessionId : text)
  (w : World) : Outcome * World :=
  let b := beginTurn env message sessionId w in
  let d := resolveOrder env runtimes message sessionId w in
  match respondingAgents d with
  | None =>
      (Rejected (txt "SyntaxError"),
       {| sessionContexts := <[sessionId := det_context d]> (bg_contexts b);
          sessionTopics := <[sessionId := bg_topics b]> (sessionTopics w);
          currentContext := Some sessionId;
          randomCursor := det_cursor d;
          clockCursor := bg_clock b;
          generateCalls := generateCalls w;
          selectAgentsCalls := selectAgentsCalls w + det_selectorCalls d |})
  | Some agents =>
      let st :=
        processAgents env runtimes message agents
          {| pr_context := det_context d; pr_responses := [];
             pr_randomCursor := det_cursor d; pr_generateCalls := generateCalls w |} in
      (Resolved (orSystemFallback (pr_responses st)),
       {| sessionContexts := <[sessionId := pr_context st]> (bg_contexts b);
          sessionTopics := <[sessionId := bg_topics b]> (sessionTopics w);
          currentContext := Some sessionId;
          randomCursor := pr_randomCursor st;
          clockCursor := bg_clock b;
          generateCalls := pr_generateCalls st;
          selectAgentsCalls := selectAgentsCalls w + det_selectorCalls d |})
  end.

End ChatWorkflowManager.

(** * chat-endpoint.ts *)

Module ChatEndpoint.
Import ChatWorkflowManager.

(** The fields of the request body that the handler reads. *)
Record RequestBody := {
  body_message : option text;
  body_sessionId : option text
}.

(** The reply: the HTTP status and the fields of the JSON payload. *)
Record ChatResponse := {
  status : nat;
  error : option text;
  details : option text;
  conversation : option (list AgentResponse)
}.

Definition systemEntry (s : string) : AgentResponse :=
  {| agent := txt "System"; message := txt s |}.

(** The reply of the 45 second timer. *)
Definition timeoutResponse : ChatResponse :=
  {| status := 504;
     error := Some (txt "Request timed out");
     details := None;
     conversation :=
       Some [systemEntry "The request took too long to process. Please try again later."] |}.

Definition invalidRequestResponse : ChatResponse :=
  {| status := 400;
     error := Some (txt "Message is required");
     details := Some (txt "The request must include a message to process");
     conversation := None |}.

Definition processingFailedResponse (reason : text) : ChatResponse :=
  {| status := 500;
     error := Some (txt "Message processing failed");
     details := Some reason;
     conversation :=
       Some [systemEntry
               "An error occurred while processing your request. Please try again later."] |}.

(** The reply of the outermost catch. *)
Definition unexpectedErrorResponse (reason : text) : ChatResponse :=
  {| status := 500;
     error := Some (txt "Unexpected server error");
     details := Some reason;
     conversation :=
       Some [systemEntry "An unexpected error occurred. Our team has been notified."] |}.

Definition noResponsesResponse : ChatResponse :=
  {| status := 200; error := None; details := None;
     conversation := Some [systemEntry "Our agents are taking a break. Please try again."] |}.

Definition successResponse (responses : list AgentResponse) : ChatResponse :=
  {| status := 200; error := None; details := None; conversation := Some responses |}.

(** The state after the request identifier of the handler is made: one
    reading of the clock and one draw. *)
Definition afterRequestId (w : World) : World :=
  {| sessionContexts := sessionContexts w;
     sessionTopics := sessionTopics w;
     currentContext := currentContext w;
     randomCursor := S (randomCursor w);
     clockCursor := S (clockCursor w);
     generateCalls := generateCalls w;
     selectAgentsCalls := selectAgentsCalls w |}.

(** The handler of POST /multi-agent-chat, when the timer does not fire. *)
Definition handleRequest (env : Env) (runtimes : Runtimes) (body : RequestBody) (w : World)
  : ChatResponse * World :=
  let w := afterRequestId w in
  match body_message body with
  | Some ((_ :: _) as message) =>
      let sessionId := default (txt "default") (body_sessionId body) in
      match processMessage env runtimes message sessionId w with
      | (Rejected reason, w') => (processingFailedResponse reason, w')
      | (Resolved [], w') => (noResponsesResponse, w')
      | (Resolved responses, w') => (successResponse responses, w')
      end
  | _ => (invalidRequestResponse, w)
  end.

(** A reply is an error response when it carries an error field. *)
Definition isErrorResponse (r : ChatResponse) : bool :=
  match error r with
  | Some _ => true
  | None => false
  end.

(** A conversation that is a single entry written by the system. *)
Definition singleSystemEntry (r : ChatResponse) : bool :=
  match conversation r with
  | Some [entry] => Str.eqb (agent entry) (txt "System")
  | _ => false
  end.

(** The validation of setupMultiAgentChatEndpoint: a runtime is kept when it
    has a model provider and a character. *)
Definition isValidRuntime (runtime : Runtime) : bool :=
  match modelProvider runtime, character runtime with
  | Some _, Some _ => true
  | _, _ => false
  end.

Definition validRuntimes (runtimes : Runtimes) : Runtimes :=
  List.filter (fun entry => isValidRuntime (snd entry)) runtimes.

(** setupMultiAgentChatEndpoint: the runtimes the manager is created with,
    or [None] when the setup throws because no runtime is valid. *)
Definition setupMultiAgentChatEndpoint (runtimes : Runtimes) : option Runtimes :=
  match validRuntimes runtimes with
  | [] => None
  | valid => Some valid
  end.

End ChatEndpoint.

(** * A session named after a method of Object.prototype *)

Module MethodSession.
Import ChatWorkflowManager.

(** For a session id in [methodNames] both this.sessionContexts[sessionId]
    and this.sessionTopics[sessionId] are the inherited method, a function
    object, and truthy.  getOrCreateContext creates nothing and returns the
    function, and the turn keeps the fields of the context on it.  [unset]
    is the function before any turn: none of the fields is defined. *)
Definition unset : ConversationContext :=
  {| turn := None; lastAgent := None; userMessage := None; lastUserMessage := None;
     messageHistory := []; directlyAddressed := false |}.

(** handleTopicChange: the record of topics is not initialised, because the
    read is truthy.  When the topic changed, previousTopics of the function
    is undefined and the call of push throws a TypeError ([None]), before
    anything is written. *)
Definition handleTopicChange (message : text) (context : ConversationContext)
  : option ConversationContext :=
  if topicChanged message context then None else Some context.

(** processMessage: the outcome, the fields of the function after the turn
    and the rest of the state.  The TypeError is thrown outside the try
    blocks of the loop, so the promise is rejected. *)
Definition processMessage (env : Env) (runtimes : Runtimes) (message sessionId : text)
  (context : ConversationContext) (w : World) : Outcome * ConversationContext * World :=
  match handleTopicChange message context with
  | None =>
      (Rejected (txt "TypeError"), context,
       {| sessionContexts := sessionContexts w;
          sessionTopics := sessionTopics w;
          currentContext := Some sessionId;
          randomCursor := S (randomCursor w);
          clockCursor := S (clockCursor w);
          generateCalls := generateCalls w;
          selectAgentsCalls := selectAgentsCalls w |})
  | Some context =>
      let d := determineRespondingAgents env runtimes message
                 (recordUserMessage message context) (S (randomCursor w)) in
      match respondingAgents d with
      | None =>
          (Rejected (txt "SyntaxError"), det_context d,
           {| sessionContexts := sessionContexts w;
              sessionTopics := sessionTopics w;
              currentContext := Some sessionId;
              randomCursor := det_cursor d;
              clockCursor := S (clockCursor w);
              generateCalls := generateCalls w;
              selectAgentsCalls := selectAgentsCalls w + det_selectorCalls d |})
      | Some agents =>
          let st :=
            processAgents env runtimes message agents
              {| pr_context := det_context d; pr_responses := [];
                 pr_randomCursor := det_cursor d; pr_generateCalls := generateCalls w |} in
          (Resolved (orSystemFallback (pr_responses st)), pr_context st,
           {| sessionContexts := sessionContexts w;
              sessionTopics := sessionTopics w;
              currentContext := Some sessionId;
              randomCursor := pr_randomCursor st;
              clockCursor := S (clockCursor w);
              generateCalls := pr_generateCalls st;
              selectAgentsCalls := selectAgentsCalls w + det_selectorCalls d |})
      end
  end.

(** Whether a promise resolved with at least one response. *)
Definition resolvedNonEmpty (o : Outcome) : bool :=
  match o with
  | Resolved (_ :: _) => true
  | _ => false
  end.

End MethodSession.

(** * Auxiliary notions *)


(** A text that contains another one, as a decomposition. *)
Definition contains (s p : text) : Prop := ∃ pre post, s = pre ++ p ++ post.

(** * Sample data *)

Module Sample.
Import ChatWorkflowManager.

Definition throwing : nat -> text -> Generated := fun _ _ => Threw.

Definition runtimeOf (name : string) (generate : nat -> text -> Generated) : text * Runtime :=
  (txt name,
   {| character := Some {| char_name := txt name; char_system := None |};
      modelProvider := Some {| generateText := Some generate |} |}).

(** The three personas, all backed by the same provider. *)
Definition roster (generate : nat -> text -> Generated) : Runtimes :=
  [ runtimeOf "Analyst Alex" generate;
    runtimeOf "Curious Clara" generate;
    runtimeOf "Strategic Sam" generate ].

(** Every draw is one half; the clock stands still. *)
Definition env : Env := {| random := fun _ => (1 # 2)%Q; now := fun _ => 1000 |}.

(** A request for detail, in the first turn. *)
Definition detailedRequest : Formatter.LengthContext :=
  {| Formatter.lc_turn := Some 1;
     Formatter.lc_directlyAddressed := Some false;
     Formatter.lc_userMessage := txt "Please explain the data in depth" |}.

(** 3600 code units whose only sentence terminator is at index 2199. *)
Definition farSentence : text :=
  txt "data " ++ repeat "a"%char 2194 ++ txt "." ++ repeat "a"%char 1400.

(** 2250 code units without a sentence terminator. *)
Definition noSentence : text := repeat "a"%char 2250.

(** Forty short sentences, 640 code units. *)
Definition shortSentences : text := concat (repeat (txt "Short sentence. ") 40).

(** A context in its third turn, after Clara spoke last. *)
Definition afterClara : ConversationContext :=
  {| turn := Some 3; lastAgent := Some AgentSelector.CuriousClara; userMessage := None;
     lastUserMessage := None; messageHistory := []; directlyAddressed := false |}.

End Sample.

(** The [n] equally likely draws 0/n, 1/n, ..., (n-1)/n. *)
Definition grid (n : positive) : list Q :=
  map (fun k => Z.of_nat k # n)%Q (seq 0 (Pos.to_nat n)).

(** How many draws of a grid pass a test. *)
Definition countDraws (test : Q -> bool) (n : positive) : nat :=
  length (List.filter test (grid n)).

(** The sentence terminators. *)
Definition isTerminator (c : ascii) : bool :=
  Char.eqb "."%char c || Char.eqb "!"%char c || Char.eqb "?"%char c.

Definition endsAtTerminator (s : text) : bool :=
  match rev s with
  | c :: _ => isTerminator c
  | [] => false
  end.

(** ** Positions of the matcher *)

(** From position [p] the matcher has consumed the text [w] and stands at
    position [e]. *)
Definition reaches (p e : Regex.pos) (w : text) : Prop :=
  Regex.rest p = w ++ Regex.rest e
  ∧ Regex.before e = rev w ++ Regex.before p
  ∧ Regex.idx e = (Regex.idx p + N.of_nat (length w))%N.

(** A matcher only hands to its continuation positions that it reaches. *)
Definition sound (m : Regex.pos -> (Regex.pos -> option Regex.pos) -> option Regex.pos)
  : Prop :=
  ∀ p k e, m p k = Some e -> ∃ p' w, reaches p p' w ∧ k p' = Some e.

(** ** The history of a session *)

(** The context that getOrCreateContext hands out for a session. *)
Definition contextOf (w : ChatWorkflowManager.World) (sessionId : text) : ConversationContext :=
  default ChatWorkflowManager.newContext (ChatWorkflowManager.sessionContexts w !! sessionId).

Definition userEntry (msg : text) : HistoryEntry :=
  {| role := user; content := msg; name := None |}.

Definition markerIf (b : bool) : list HistoryEntry :=
  if b then [ChatWorkflowManager.topicChangeMarker] else [].

(** ** Fallback entries *)


(** ** Who speaks for an agent *)


(** ** Attempts, providers and characters *)

(** An attempt of the retry loop that gives nothing to use: the provider
    threw, or it returned the empty text. *)
Definition fruitless (g : ChatWorkflowManager.Generated) : Prop :=
  g = ChatWorkflowManager.Threw ∨ g = ChatWorkflowManager.Returned [].

(** Every runtime has a character. *)
Definition hasCharacters (runtimes : ChatWorkflowManager.Runtimes) : Prop :=
  ∀ agentName rt,
    ChatWorkflowManager.lookupRuntime runtimes agentName = Some rt ->
    is_Some (ChatWorkflowManager.character rt).


(** ** Scores in descending order *)

Definition descending (l : list (list ascii * Q)) : Prop :=
  StronglySorted (fun x y => (snd y <= snd x)%Q) l.

(** ** The first code unit *)

Definition startsLower (s : text) : bool :=
  match s with
  | c :: _ => Char.isLowerAZ c
  | [] => false
  end.

(** ** More sample data *)

Module Cases.
Import ChatWorkflowManager.



(** One earlier response of a turn. *)
Definition alexSpoke : list AgentResponse :=
  [ {| agent := txt "Analyst Alex"; message := txt "It depends on the data." |} ].

End Cases.

(** * Properties *)

(** ** Code units *)

Lemma toLower_spec (c : ascii) :
  Char.toLower c =
  if Char.isUpperAZ c || Char.isUpperLatin c
  then Char.of_code (Char.code c + 32) else c.
Proof. destruct c as [[] [] [] [] [] [] [] []]; reflexivity. Qed.

Lemma toUpper_spec (c : ascii) :
  Char.toUpper c =
  if Char.isLowerAZ c || Char.isLowerLatin c
  then Char.of_code (Char.code c - 32) else c.
Proof. destruct c as [[] [] [] [] [] [] [] []]; reflexivity. Qed.

(** ** The patterns of the sources are read *)

Section Patterns.
Import Regex RegExp.

(** Every regular expression literal of the sources is accepted by
    [parseRegExp], so [literal] never falls back. *)
Lemma literals_parse :
  forallb (fun source => if parseRegExp (txt source) is Some _ then true else false)
    [ "\([^)]+\)";
      "\b(?:lean(?:s|ed|ing))(?: \w+)*(?: (?:forward|back|in|on))";
      "\b(?:sit(?:s|ting))(?: \w+)*(?: (?:up|down|back))";
      "\b(?:stand(?:s|ing))(?: \w+)*(?: (?:up|back))";
      "\b(?:nod(?:s|ding))(?: \w+)*";
      "\b(?:smile(?:s|d|ing))(?: \w+)*";
      "\b(?:laugh(?:s|ed|ing))(?: \w+)*";
      "\b(?:smirk(?:s|ed|ing))(?: \w+)*";
      "\b(?:wink(?:s|ed|ing))(?: \w+)*";
      "\b(?:gesture(?:s|d|ing))(?: \w+)*";
      "\bin (?:his|her|their) chair\b";
      "\s{2,}";
      "\n\s*\n\s*\n";
      "([.!?])\s*([A-Z])";
      "\n\s*(And|But|So|Because|However|Therefore|Thus)\s+";
      "^(And|But|So|Because|However|Therefore|Thus)\s+";
      "\b(brief|quick|short|simple|summarize|concise)\b";
      "\b(detailed|comprehensive|thorough|explain|elaborate|in depth)\b";
      "\b(analysis|complex|difficult|challenging|compare|contrast|debate)\b";
      "\d%|\d+\.\d+|analysis|data|statistics|evidence|metrics";
      ".*[.!?]";
      "\b[1-9A-HJ-NP-Za-km-z]{32,44}\b";
      "\W+" ]%string = true.
Proof. vm_compute. reflexivity. Qed.

Example parse_parenthetical :
  parseRegExp (txt "\([^)]+\)")
  = Some (RSeq (RChar "("%char)
            (RSeq (RRep 1 None (RClass true [CChar ")"%char])) (RChar ")"%char))).
Proof. reflexivity. Qed.

Example parse_asks :
  parseRegExp (txt "Sam asks:[^\n]*")
  = Some (RSeq (RChar "S"%char) (RSeq (RChar "a"%char) (RSeq (RChar "m"%char)
         (RSeq (RChar " "%char) (RSeq (RChar "a"%char) (RSeq (RChar "s"%char)
         (RSeq (RChar "k"%char) (RSeq (RChar "s"%char) (RSeq (RChar ":"%char)
         (RRep 0 None (RClass true [CChar Char.nl]))))))))))).
Proof. reflexivity. Qed.

Example parse_unbalanced :
  parseRegExp (txt "Foo (Bar (thinks|believes)") = None.
Proof. reflexivity. Qed.

(** The matcher on small subjects. *)
Example exec_sentence :
  exec false Formatter.sentenceRe (txt "One. Two! three") = Some (txt "One. Two!").
Proof. reflexivity. Qed.

Example replace_spaces :
  replaceAll false (literal "\s{2,}") (fun _ => txt "-") (txt "a  b c   d") = txt "a-b c-d".
Proof. reflexivity. Qed.

End Patterns.

(** ** The chat endpoint *)

Section Endpoint.
Import ChatWorkflowManager ChatEndpoint.

(** The three sibling error replies carry one entry written by the system. *)
Lemma sibling_errors_carry_conversation (reason : text) :
  Forall (fun r => isErrorResponse r = true ∧ singleSystemEntry r = true)
         [timeoutResponse; processingFailedResponse reason; unexpectedErrorResponse reason].
Proof. repeat constructor. Qed.

Lemma handleRequest_no_message env runtimes sessionId w :
  fst (handleRequest env runtimes
         {| body_message := None; body_sessionId := sessionId |} w)
  = invalidRequestResponse.
Proof. reflexivity. Qed.

(** C8. The reply to a request without a message field is an error response
    (status 400, error set) that carries no conversation at all, while the
    other error replies of the same handler carry a single system entry: the
    claim that every error response carries such a conversation fails on the
    InvalidInput path. *)
Theorem C8_invalid_input_reply_lacks_conversation :
  forall env runtimes sessionId w,
    let r := fst (handleRequest env runtimes
                    {| body_message := None; body_sessionId := sessionId |} w) in
    status r = 400 ∧ isErrorResponse r = true ∧ conversation r = None
    ∧ singleSystemEntry r = false.
Proof. intros. subst r. rewrite handleRequest_no_message. by repeat split. Qed.

End Endpoint.

(** ** processResponse and its catch block *)

Section FormatterCatch.
Import Formatter.

(** C10. When a step of the try block throws, processResponse returns the
    raw response text: nothing of the cleanup and no length adjustment is
    applied (no random draw is taken), and the function returns normally. *)
Theorem C10_exception_returns_raw_text :
  forall responseText agentName context random cursor r1 r2,
    cleanup responseText agentName = None ->
    processResponse responseText agentName context random cursor = (responseText, cursor)
    ∧ processResponseWith responseText agentName context r1 r2 = responseText.
Proof.
  intros * Hthrow. unfold processResponse, processResponseWith.
  by rewrite Hthrow.
Qed.

(** A persona name with an unbalanced parenthesis makes the RegExp
    constructor of step 4 throw. *)
Lemma C10_witness :
  cleanup (txt "hello (wave) there") (txt "Foo (Bar") = None
  ∧ processResponse (txt "hello (wave) there") (txt "Foo (Bar") noContext
      (fun _ => 1 # 2)%Q 7 = (txt "hello (wave) there", 7)
  ∧ processResponseWith (txt "hello (wave) there") (txt "Foo (Bar") noContext
      (1 # 2)%Q (1 # 2)%Q = txt "hello (wave) there".
Proof.
  split; [vm_compute; reflexivity|].
  apply (C10_exception_returns_raw_text (txt "hello (wave) there") (txt "Foo (Bar")).
  vm_compute; reflexivity.
Defined.

End FormatterCatch.

(** ** Who responds *)

Section Addressing.
Import ChatWorkflowManager.

Lemma addressLoop_filter messageLower agents acc :
  addressLoop messageLower agents acc
  = acc ++ filter (fun a => addressed messageLower a = true) agents.
Proof.
  revert acc. induction agents as [|a agents IH]; intros acc; simpl.
  - by rewrite app_nil_r.
  - rewrite filter_cons. destruct (addressed messageLower a) eqn:Ha.
    + rewrite IH. rewrite decide_True by done. by rewrite <- app_assoc.
    + rewrite IH. by rewrite decide_False by done.
Qed.

(** The addressed agents are the available ones that the check accepts, in
    the order of the roster. *)
Lemma getDirectlyAddressedAgents_filter message agents :
  getDirectlyAddressedAgents message agents
  = filter (fun a => addressed (Str.toLowerCase message) a = true) agents.
Proof. unfold getDirectlyAddressedAgents. by rewrite addressLoop_filter. Qed.

Lemma addressed_nonempty_available message runtimes :
  getDirectlyAddressedAgents message (availableAgents runtimes) ≠ [] ->
  (length (availableAgents runtimes) =? 0) = false.
Proof.
  intros H. destruct (availableAgents runtimes) as [|a l] eqn:E; [|done].
  by destruct H.
Qed.

(** Both branches of the addressed case return the same record. *)
Lemma determineRespondingAgents_addressed env runtimes message context cursor :
  getDirectlyAddressedAgents message (availableAgents runtimes) ≠ [] ->
  determineRespondingAgents env runtimes message context cursor
  = {| respondingAgents :=
         Some (getDirectlyAddressedAgents message (availableAgents runtimes));
       det_context := setDirectlyAddressed context;
       det_cursor := cursor;
       det_selectorCalls := 0 |}.
Proof.
  intros H. unfold determineRespondingAgents.
  rewrite (addressed_nonempty_available _ _ H).
  destruct (getDirectlyAddressedAgents message (availableAgents runtimes)) as [|a l] eqn:E;
    [done|].
  cbn [length Nat.ltb Nat.leb].
  by destruct (_ && _).
Qed.

(** C9. When the addressing check of the orchestrator finds at least one
    agent, determineRespondingAgents returns exactly the addressed agents, in
    roster order, without calling the selector; the test on a single
    addressee and on the words everyone and all has no effect on what is
    returned. *)
Theorem C9_addressed_set_is_returned :
  forall env runtimes message context cursor,
    getDirectlyAddressedAgents message (availableAgents runtimes) ≠ [] ->
    let d := determineRespondingAgents env runtimes message context cursor in
    respondingAgents d
    = Some (filter (fun a => addressed (Str.toLowerCase message) a = true)
                   (availableAgents runtimes))
    ∧ det_selectorCalls d = 0
    ∧ det_cursor d = cursor
    ∧ directlyAddressed (det_context d) = true.
Proof.
  intros * H d. subst d.
  rewrite (determineRespondingAgents_addressed _ _ _ _ _ H).
  rewrite <- getDirectlyAddressedAgents_filter. by repeat split.
Qed.

Lemma C9_witness :
  let message := txt "Alex, and Clara: what do you all think?" in
  let d := determineRespondingAgents Sample.env (Sample.roster Sample.throwing) message
             newContext 0 in
  getDirectlyAddressedAgents message (availableAgents (Sample.roster Sample.throwing))
  = [txt "Analyst Alex"; txt "Curious Clara"]
  ∧ respondingAgents d
    = Some (filter (fun a => addressed (Str.toLowerCase message) a = true)
                   (availableAgents (Sample.roster Sample.throwing)))
  ∧ det_selectorCalls d = 0
  ∧ det_cursor d = 0
  ∧ directlyAddressed (det_context d) = true.
Proof.
  intros message d. split; [vm_compute; reflexivity|].
  apply (C9_addressed_set_is_returned Sample.env (Sample.roster Sample.throwing) message
           newContext 0).
  vm_compute. discriminate.
Defined.





End Addressing.

(** ** The budget *)

Section Budget.
Import Formatter.

Lemma Qlt_bool_iff (a b : Q) : Qlt_bool a b = true <-> (a < b)%Q.
Proof.
  unfold Qlt_bool. rewrite negb_true_iff. split.
  - intros H. apply Qnot_le_lt. intros Hle. apply Qle_bool_iff in Hle. congruence.
  - intros H. destruct (Qle_bool b a) eqn:E; [|done].
    apply Qle_bool_iff in E. exfalso. by apply (Qlt_not_le _ _ H).
Qed.

Lemma Qlt_bool_false_iff (a b : Q) : Qlt_bool a b = false <-> (b <= a)%Q.
Proof.
  unfold Qlt_bool. rewrite negb_false_iff. apply Qle_bool_iff.
Qed.

(** With a draw that is not negative the budget is at least 200 code units,
    whoever the agent is. *)
Lemma charLimit_lower_bound responseText agentName context (r1 r2 : Q) :
  (0 <= r2)%Q ->
  (200 <= charLimit responseText agentName context r1 r2)%Q.
Proof.
  intros Hr. unfold charLimit, isAgent, baseLimit.
  repeat match goal with
         | |- context [if ?b then _ else _] => destruct b
         end; cbv [default from_option id andb orb]; lra.
Qed.

Lemma fitToLimit_within responseText (limit : Q) :
  (Qofnat (length responseText) <= limit)%Q ->
  fitToLimit responseText limit = responseText.
Proof.
  intros H. unfold fitToLimit.
  by rewrite (proj2 (Qlt_bool_false_iff _ _) H).
Qed.

End Budget.

(** ** The parenthetical example *)

Section Parenthetical.
Import Formatter.

Lemma cleanup_smiles :
  cleanup (txt "(smiles) I think this is important.") (txt "Analyst Alex")
  = Some (txt " I think this is important.").
Proof. vm_compute. reflexivity. Qed.

(** C7. Normalizing the text (smiles) I think this is important. for Analyst
    Alex removes the parenthetical but leaves the space that followed it: the
    output has no parenthesis, and it is the sentence behind one leading
    space, so it does not begin with the sentence itself.  This holds for
    every context and all draws (the second one not negative). *)
Theorem C7_parenthetical_leaves_leading_space :
  forall context (r1 r2 : Q),
    (0 <= r2)%Q ->
    let out := processResponseWith (txt "(smiles) I think this is important.")
                 (txt "Analyst Alex") context r1 r2 in
    out = txt " I think this is important."
    ∧ Str.includes out (txt "(") = false
    ∧ Str.includes out (txt ")") = false
    ∧ Str.startsWith out (txt "I think this is important.") = false.
Proof.
  intros context r1 r2 Hr out.
  assert (Hout : out = txt " I think this is important.").
  { subst out. unfold processResponseWith. rewrite cleanup_smiles.
    unfold applyDynamicLengthAdjustment. apply fitToLimit_within.
    pose proof (charLimit_lower_bound (txt " I think this is important.")
                  (txt "Analyst Alex") context r1 r2 Hr) as Hb.
    eapply Qle_trans; [|exact Hb]. vm_compute. discriminate. }
  rewrite Hout. repeat split; vm_compute; reflexivity.
Qed.

Lemma C7_witness :
  let out := processResponseWith (txt "(smiles) I think this is important.")
               (txt "Analyst Alex") noContext (1 # 2)%Q (1 # 2)%Q in
  out = txt " I think this is important."
  ∧ Str.includes out (txt "(") = false
  ∧ Str.includes out (txt ")") = false
  ∧ Str.startsWith out (txt "I think this is important.") = false.
Proof.
  apply (C7_parenthetical_leaves_leading_space noContext (1 # 2)%Q (1 # 2)%Q).
  vm_compute. discriminate.
Defined.

End Parenthetical.

(** ** Idempotence: the counterexample *)

Section NotIdempotent.
Import Formatter.


End NotIdempotent.

(** ** Relationship reordering *)

Section Reordering.
Import AgentSelector.

(** The follower loop returns the base order or moves to the front a
    follower that the table names and that is in the base order. *)
Lemma followerLoop_result lastAgent baseOrder patterns random i :
  fst (followerLoop lastAgent baseOrder patterns random i) = baseOrder
  ∨ ∃ follower likelihood,
      (follower, likelihood) ∈ patterns
      ∧ isMember follower baseOrder = true
      ∧ fst (followerLoop lastAgent baseOrder patterns random i)
        = moveToFront follower baseOrder.
Proof.
  revert i. induction patterns as [|[follower likelihood] patterns IH]; intros i; cbn.
  - by left.
  - destruct (isMember follower baseOrder) eqn:Hm.
    + unfold mbind, Rand_bind, draw.
      destruct (Qlt_bool (random i) likelihood && negb (Str.eqb follower lastAgent)).
      * right. exists follower, likelihood. repeat split; [left|done].
      * destruct (IH (S i)) as [H|(f & l & Hin & Hmem & H)]; [by left|].
        right. exists f, l. repeat split; [by right|done|done].
    + destruct (IH i) as [H|(f & l & Hin & Hmem & H)]; [by left|].
      right. exists f, l. repeat split; [by right|done|done].
Qed.

Lemma skipsReordering_iff (r : Q) : skipsReordering r = true <-> (6 # 10 < r)%Q.
Proof. apply Qlt_bool_iff. Qed.

(** C5, amended. With a turn of at least 2, a last agent and at least two
    selected agents, the reordering step takes one draw: it is skipped
    exactly when the draw exceeds 0.6 (probability 40%), and the table is
    consulted when the draw is at most 0.6 (probability 60%).  The order
    changes only when the table is consulted, and then a follower that the
    table names for the last agent and that is among the selected agents is
    moved to the front. *)
Theorem C5_table_consulted_when_draw_at_most_six_tenths :
  forall baseOrder context lastAgentName n random i,
    lastAgent context = Some lastAgentName ->
    lastAgentName ≠ [] ->
    turn context = Some n ->
    2 ≤ n ->
    2 ≤ length baseOrder ->
    let out := applyRelationshipBasedOrdering baseOrder context random i in
    ((6 # 10 < random i)%Q -> out = (baseOrder, S i))
    ∧ ((random i <= 6 # 10)%Q ->
       out = match relationshipPatterns lastAgentName with
             | Some patterns => followerLoop lastAgentName baseOrder patterns random (S i)
             | None => (baseOrder, S i)
             end)
    ∧ (fst out ≠ baseOrder ->
       (random i <= 6 # 10)%Q
       ∧ ∃ patterns follower likelihood,
           relationshipPatterns lastAgentName = Some patterns
           ∧ (follower, likelihood) ∈ patterns
           ∧ isMember follower baseOrder = true
           ∧ fst out = moveToFront follower baseOrder).
Proof.
  intros baseOrder context la n random i Hla Hne Hturn Hn Hlen out.
  assert (Hout : out = if skipsReordering (random i) then (baseOrder, S i)
                       else match relationshipPatterns la with
                            | Some patterns => followerLoop la baseOrder patterns random (S i)
                            | None => (baseOrder, S i)
                            end).
  { subst out. unfold applyRelationshipBasedOrdering. rewrite Hla.
    destruct la as [|c la]; [done|].
    unfold turnBelow2. rewrite Hturn.
    replace (length baseOrder <? 2) with false by (symmetry; apply Nat.ltb_ge; lia).
    replace (n <? 2) with false by (symmetry; apply Nat.ltb_ge; lia).
    cbn [orb]. unfold mbind, Rand_bind, draw.
    destruct (skipsReordering (random i)); [done|].
    by destruct (relationshipPatterns (c :: la)). }
  rewrite Hout. split; [|split].
  - intros H. by rewrite (proj2 (skipsReordering_iff _) H).
  - intros H. unfold skipsReordering.
    by rewrite (proj2 (Qlt_bool_false_iff _ _) H).
  - destruct (skipsReordering (random i)) eqn:Hs; [done|].
    intros Hchanged. split; [by apply Qlt_bool_false_iff|].
    destruct (relationshipPatterns la) as [patterns|]; [|done].
    destruct (followerLoop_result la baseOrder patterns random (S i))
      as [H|(f & l & Hin & Hmem & H)]; [done|].
    by exists patterns, f, l.
Qed.

Lemma C5_witness :
  let out := applyRelationshipBasedOrdering [AnalystAlex; StrategicSam] Sample.afterClara
               (fun _ => 1 # 2)%Q 0 in
  (((6 # 10 < 1 # 2)%Q -> out = ([AnalystAlex; StrategicSam], 1))
   ∧ (((1 # 2) <= 6 # 10)%Q ->
      out = match relationshipPatterns CuriousClara with
            | Some patterns =>
                followerLoop CuriousClara [AnalystAlex; StrategicSam] patterns
                  (fun _ => 1 # 2)%Q 1
            | None => ([AnalystAlex; StrategicSam], 1)
            end)
   ∧ (fst out ≠ [AnalystAlex; StrategicSam] ->
      ((1 # 2) <= 6 # 10)%Q
      ∧ ∃ patterns follower likelihood,
          relationshipPatterns CuriousClara = Some patterns
          ∧ (follower, likelihood) ∈ patterns
          ∧ isMember follower [AnalystAlex; StrategicSam] = true
          ∧ fst out = moveToFront follower [AnalystAlex; StrategicSam]))
  ∧ out = ([StrategicSam; AnalystAlex], 2).
Proof.
  split.
  - apply (C5_table_consulted_when_draw_at_most_six_tenths
             [AnalystAlex; StrategicSam] Sample.afterClara CuriousClara 3 (fun _ => 1 # 2)%Q 0);
      [reflexivity|discriminate|reflexivity|lia|simpl; lia].
  - vm_compute. reflexivity.
Defined.

(** C5, as stated, fails: of the 1000 equally likely draws k/1000 the table
    is consulted at 601 (the draws up to 0.6) and skipped at 399, not
    consulted at 400 and skipped at 600; and at the draw 0.5 the table is
    consulted and Sam, who follows Clara in the table, is moved to the
    front. *)
Lemma C5_counterexample :
  countDraws (fun r => negb (skipsReordering r)) 1000 = 601
  ∧ countDraws skipsReordering 1000 = 399
  ∧ countDraws (fun r => negb (skipsReordering r)) 1000 ≠ 400
  ∧ skipsReordering (1 # 2) = false
  ∧ applyRelationshipBasedOrdering [AnalystAlex; StrategicSam] Sample.afterClara
      (fun _ => 1 # 2)%Q 0 = ([StrategicSam; AnalystAlex], 2).
Proof. vm_compute. repeat split; discriminate. Qed.

End Reordering.

(** ** The turn: history and responses *)

Section Turn.
Import ChatWorkflowManager.

Lemma getOrCreateContext_spec contexts sessionId :
  snd (getOrCreateContext contexts sessionId)
  = default newContext (contexts !! sessionId)
  ∧ ∀ c, <[sessionId := c]> (fst (getOrCreateContext contexts sessionId)) !! sessionId
         = Some c.
Proof.
  unfold getOrCreateContext. destruct (contexts !! sessionId) eqn:E; cbn;
    (split; [done|intros c0; apply lookup_insert_eq]).
Qed.

(** What the start of a turn does to the context of the session. *)
Lemma beginTurn_context env msg sessionId w :
  let c := contextOf w sessionId in
  let c' := bg_context (beginTurn env msg sessionId w) in
  lastUserMessage c' = userMessage c
  ∧ userMessage c' = Some msg
  ∧ turn c' = Some (default 0 (turn c) + 1)
  ∧ messageHistory c'
    = messageHistory c ++ markerIf (topicChanged msg c) ++ [userEntry msg].
Proof.
  intros c c'. subst c c'. unfold beginTurn, contextOf.
  destruct (getOrCreateContext_spec (sessionContexts w) sessionId) as [Hc _].
  destruct (getOrCreateContext (sessionContexts w) sessionId) as [contexts context].
  cbn in Hc. rewrite <- Hc. unfold handleTopicChange.
  destruct (topicChanged msg context); cbn; repeat split; try done.
  by rewrite <- app_assoc.
Qed.

Lemma beginTurn_contexts env msg sessionId w c :
  <[sessionId := c]> (bg_contexts (beginTurn env msg sessionId w)) !! sessionId = Some c.
Proof.
  unfold beginTurn.
  destruct (getOrCreateContext_spec (sessionContexts w) sessionId) as [_ Hc].
  destruct (getOrCreateContext (sessionContexts w) sessionId) as [contexts context].
  destruct (handleTopicChange _ _ _ _ _) as [[? ?] ?]. cbn. apply Hc.
Qed.

(** The choice of the agents changes at most the directlyAddressed flag. *)
Lemma determineRespondingAgents_context env runtimes msg context cursor :
  let c' := det_context (determineRespondingAgents env runtimes msg context cursor) in
  lastUserMessage c' = lastUserMessage context
  ∧ userMessage c' = userMessage context
  ∧ turn c' = turn context
  ∧ messageHistory c' = messageHistory context.
Proof.
  unfold determineRespondingAgents.
  destruct (length (availableAgents runtimes) =? 0); [done|].
  destruct (0 <? length _).
  - by destruct (_ && _).
  - by destruct (AgentSelector.selectAgents _ _ _ _ _).
Qed.

(** One iteration of the loop appends at most one entry to the history, an
    assistant entry, and leaves the user messages alone. *)
Lemma processAgent_context env runtimes msg agentName st :
  let c := pr_context st in
  let c' := pr_context (processAgent env runtimes msg agentName st) in
  lastUserMessage c' = lastUserMessage c
  ∧ userMessage c' = userMessage c
  ∧ turn c' = turn c
  ∧ ∃ l, messageHistory c' = messageHistory c ++ l
         ∧ Forall (fun e => role e = assistant) l.
Proof.
  unfold processAgent.
  destruct (usableGenerator runtimes agentName) as [generate|].
  - destruct (buildAgentPrompt _ _ _ _).
    + destruct (generateWithRetry _ _ _ _) as [generated calls].
      destruct (Formatter.processResponse _ _ _ _ _) as [responseText cursor].
      cbn. repeat split. eexists. split; [reflexivity|]. by repeat constructor.
    + cbn. repeat split. exists []. by rewrite app_nil_r.
  - cbn. repeat split. exists []. by rewrite app_nil_r.
Qed.

Lemma processAgents_context env runtimes msg agents st :
  let c := pr_context st in
  let c' := pr_context (processAgents env runtimes msg agents st) in
  lastUserMessage c' = lastUserMessage c
  ∧ userMessage c' = userMessage c
  ∧ turn c' = turn c
  ∧ ∃ l, messageHistory c' = messageHistory c ++ l
         ∧ Forall (fun e => role e = assistant) l.
Proof.
  revert st. induction agents as [|a agents IH]; intros st; cbn.
  - repeat split. exists []. by rewrite app_nil_r.
  - destruct (IH (processAgent env runtimes msg a st)) as (H1 & H2 & H3 & l2 & H4 & H5).
    destruct (processAgent_context env runtimes msg a st) as (G1 & G2 & G3 & l1 & G4 & G5).
    unfold processAgents in *. rewrite H1, H2, H3, H4, G1, G2, G3, G4.
    repeat split. exists (l1 ++ l2). split; [by rewrite app_assoc|].
    by apply Forall_app.
Qed.

(** The context of the session after processMessage: the user message is
    shifted, and the history grows by the topic marker (when the check
    fires), the user entry and assistant entries, in this order. *)
Lemma processMessage_context env runtimes msg sessionId w :
  let c := contextOf w sessionId in
  ∃ c' l,
    sessionContexts (snd (processMessage env runtimes msg sessionId w)) !! sessionId
    = Some c'
    ∧ lastUserMessage c' = userMessage c
    ∧ userMessage c' = Some msg
    ∧ turn c' = Some (default 0 (turn c) + 1)
    ∧ messageHistory c'
      = messageHistory c ++ markerIf (topicChanged msg c) ++ [userEntry msg] ++ l
    ∧ Forall (fun e => role e = assistant) l.
Proof.
  intros c.
  destruct (beginTurn_context env msg sessionId w) as (B1 & B2 & B3 & B4).
  fold c in B1, B3, B4.
  pose proof (determineRespondingAgents_context env runtimes msg
                (bg_context (beginTurn env msg sessionId w)) (S (randomCursor w)))
    as (D1 & D2 & D3 & D4).
  unfold processMessage. unfold resolveOrder.
  destruct (respondingAgents _) as [agents|].
  - match goal with |- context [processAgents ?e ?r ?m ?a ?st] =>
      destruct (processAgents_context e r m a st) as (P1 & P2 & P3 & l & P4 & P5) end.
    cbn [pr_context] in P1, P2, P3, P4.
    eexists; exists l. cbn [snd sessionContexts].
    split; [apply beginTurn_contexts|].
    rewrite P1, P2, P3, P4, D1, D2, D3, D4, B1, B2, B3, B4.
    repeat split; [|done]. by rewrite <- !app_assoc.
  - eexists; exists []. cbn [snd sessionContexts].
    split; [apply beginTurn_contexts|].
    rewrite D1, D2, D3, D4, B1, B2, B3, B4.
    repeat split; first [done | by rewrite <- !app_assoc].
Qed.

(** When the field lastUserMessage holds a message that the topic check
    tells apart from the current one, the marker goes into the history just
    before the user entry. *)
Lemma marker_precedes_user_entry env runtimes msg sessionId w previous :
  lastUserMessage (contextOf w sessionId) = Some previous ->
  previous ≠ [] ->
  isNewTopic msg previous = true ->
  ∃ c' l,
    sessionContexts (snd (processMessage env runtimes msg sessionId w)) !! sessionId
    = Some c'
    ∧ messageHistory c'
      = messageHistory (contextOf w sessionId)
        ++ [topicChangeMarker] ++ [userEntry msg] ++ l.
Proof.
  intros Hlast Hne Hnew.
  destruct (processMessage_context env runtimes msg sessionId w)
    as (c' & l & H & _ & _ & _ & M & _).
  exists c', l. split; [done|]. rewrite M.
  unfold topicChanged. rewrite Hlast. destruct previous; [done|]. by rewrite Hnew.
Qed.

(** The topic check itself tells the two messages apart. *)
Lemma weather_then_budget_is_new_topic :
  isNewTopic (txt "Let's plan the quarterly budget allocation strategy")
             (txt "What's the weather today?") = true.
Proof. vm_compute. reflexivity. Qed.

(** C2. In a fresh session the user first sends the weather question and
    then the budget message.  The topic check of the second turn reads
    lastUserMessage, which still holds the message before the previous one
    (none here), so it does not compare with the weather question: after the
    second turn the history holds no system entry at all, although
    isNewTopic tells the two messages apart.  The marker that the claim
    expects before the new user entry is missing. *)
Theorem C2_no_marker_against_previous_message :
  forall env runtimes sessionId,
    let weather := txt "What's the weather today?" in
    let budget := txt "Let's plan the quarterly budget allocation strategy" in
    let w1 := snd (processMessage env runtimes weather sessionId initialWorld) in
    let w2 := snd (processMessage env runtimes budget sessionId w1) in
    isNewTopic budget weather = true
    ∧ ∃ c1 c2,
        sessionContexts w1 !! sessionId = Some c1
        ∧ userMessage c1 = Some weather
        ∧ lastUserMessage c1 = None
        ∧ sessionContexts w2 !! sessionId = Some c2
        ∧ userEntry budget ∈ messageHistory c2
        ∧ Forall (fun e => role e ≠ system) (messageHistory c2).
Proof.
  intros env runtimes sessionId weather budget w1 w2.
  split; [apply weather_then_budget_is_new_topic|].
  assert (Hfresh : contextOf initialWorld sessionId = newContext).
  { unfold contextOf, initialWorld. cbn [sessionContexts]. by rewrite lookup_empty. }
  destruct (processMessage_context env runtimes weather sessionId initialWorld)
    as (c1 & l1 & H1 & L1 & U1 & _ & M1 & A1).
  fold w1 in H1. rewrite Hfresh in L1, M1.
  destruct (processMessage_context env runtimes budget sessionId w1)
    as (c2 & l2 & H2 & _ & _ & _ & M2 & A2).
  fold w2 in H2.
  assert (Hc1 : contextOf w1 sessionId = c1) by (unfold contextOf; by rewrite H1).
  rewrite Hc1 in M2.
  assert (Hquiet : topicChanged budget c1 = false).
  { unfold topicChanged. by rewrite L1. }
  rewrite Hquiet in M2.
  assert (Hquiet1 : topicChanged weather newContext = false) by reflexivity.
  rewrite Hquiet1 in M1.
  change (messageHistory newContext) with (@nil HistoryEntry) in M1.
  cbn [markerIf app] in M1, M2.
  assert (Hassistant : ∀ l, Forall (fun e => role e = assistant) l ->
                            Forall (fun e => role e ≠ system) l).
  { intros l Hl. eapply Forall_impl; [exact Hl|]. intros e ->. discriminate. }
  exists c1, c2. repeat split; try done.
  - rewrite M2. set_solver.
  - rewrite M2, M1.
    apply Forall_app; split; [apply Forall_cons; split; [discriminate|auto]|].
    apply Forall_cons; split; [discriminate|auto].
Qed.

(** *** The selector does not throw on the roster *)

Lemma is_Some_computed {A} (o : option A) :
  match o with Some _ => true | None => false end = true -> is_Some o.
Proof. destruct o; [by eexists|discriminate]. Qed.

Lemma directPatterns_default a :
  a ∈ defaultAgentSequence ->
  ∃ c f,
    AgentSelector.firstNameLower a = Some (c :: f)
    ∧ is_Some (AgentSelector.directPatterns (c :: f)).
Proof.
  intros H. unfold defaultAgentSequence in H.
  repeat (apply elem_of_cons in H as [->|H]); [| | |by apply elem_of_nil in H].
  - exists "a"%char, (txt "lex").
    split; [vm_compute; reflexivity|apply is_Some_computed; vm_compute; reflexivity].
  - exists "c"%char, (txt "lara").
    split; [vm_compute; reflexivity|apply is_Some_computed; vm_compute; reflexivity].
  - exists "s"%char, (txt "am").
    split; [vm_compute; reflexivity|apply is_Some_computed; vm_compute; reflexivity].
Qed.

Lemma mentionLoop_default messageLower agents mentioned :
  Forall (fun a => a ∈ defaultAgentSequence) agents ->
  is_Some (AgentSelector.mentionLoop messageLower agents mentioned).
Proof.
  intros H. revert mentioned. induction H as [|a agents Ha _ IH]; intros mentioned.
  - by eexists.
  - destruct (directPatterns_default a Ha) as (c & f & Hf & patterns & Hp).
    cbn [AgentSelector.mentionLoop]. rewrite Hf.
    destruct (_ || _); [apply IH|].
    rewrite Hp. cbn [mbind option_bind]. apply IH.
Qed.

Lemma availableAgents_default runtimes :
  Forall (fun a => a ∈ defaultAgentSequence) (availableAgents runtimes).
Proof.
  unfold availableAgents. apply Forall_forall. intros a Ha.
  by apply list_elem_of_filter in Ha as [_ Ha].
Qed.

Lemma selectAgents_default msg agents context random cursor :
  Forall (fun a => a ∈ defaultAgentSequence) agents ->
  is_Some (fst (AgentSelector.selectAgents msg agents context random cursor)).
Proof.
  intros H. unfold AgentSelector.selectAgents.
  destruct (_ || _); [by eexists|].
  destruct (_ && _); [by eexists|].
  unfold AgentSelector.getExplicitlyMentionedAgents.
  destruct (mentionLoop_default (Str.toLowerCase msg) agents [] H) as [mentioned ->].
  destruct mentioned; [|by eexists].
  unfold mbind, Rand_bind.
  destruct (AgentSelector.determineResponseCount _ _ _ _) as [responseCount c1].
  destruct (AgentSelector.rankAgentsByRelevance _ _ _ _ _) as [ranked c2].
  destruct (AgentSelector.turnAbove1 context); [|by eexists].
  destruct (AgentSelector.applyRelationshipBasedOrdering _ _ _ _). by eexists.
Qed.



(** *** Providers that always throw *)






(** Under an ordinary key the read of the code is the lookup of the model;
    under the name of a method, without an own property, it finds the
    inherited function. *)
Lemma getProperty_ordinary {A} (object : gmap (list ascii) A) (key : list ascii) :
  ordinaryKey key = true ->
  getProperty object key = match object !! key with
                           | Some value => Own value
                           | None => Undefined
                           end.
Proof. intros H. unfold getProperty. by rewrite H. Qed.

Lemma getProperty_method {A} (object : gmap (list ascii) A) (key : list ascii) :
  key ∈ methodNames -> object !! key = None -> getProperty object key = Inherited.
Proof.
  intros Hin Hnone. unfold getProperty. rewrite Hnone.
  assert (Hk : ordinaryKey key = false); [|by rewrite Hk].
  unfold ordinaryKey. apply negb_false_iff, existsb_exists.
  exists key. split.
  - apply list_elem_of_In. unfold objectPrototypeKeys. apply elem_of_app. by left.
  - unfold Str.eqb. by apply bool_decide_eq_true.
Qed.

(** C3. The guarantee fails in a session whose id is the name of a method of
    Object.prototype, such as constructor.  The reads of both maps find the
    inherited function, so no context and no record of topics is created;
    the turns run on the fields of the function, and as soon as the topic
    check finds a change the push onto previousTopics throws a TypeError
    outside every try block: the promise is rejected and no conversation is
    returned, whatever the providers do.  With providers that always throw,
    the first two turns of the session still resolve with fallback entries,
    and the third one, the first whose topic check has a message to compare
    with, is rejected. *)
Theorem C3_method_named_session_is_rejected :
  (∀ env runtimes message sessionId context w,
      topicChanged message context = true ->
      fst (fst (MethodSession.processMessage env runtimes message sessionId context w))
      = Rejected (txt "TypeError"))
  ∧ getProperty (sessionContexts initialWorld) (txt "constructor") = Inherited
  ∧ getProperty (sessionTopics initialWorld) (txt "constructor") = Inherited
  ∧ let roster := Sample.roster Sample.throwing in
    let turn1 := MethodSession.processMessage Sample.env roster
                   (txt "What's the weather today?") (txt "constructor")
                   MethodSession.unset initialWorld in
    let turn2 := MethodSession.processMessage Sample.env roster
                   (txt "Is it going to rain?") (txt "constructor")
                   (snd (fst turn1)) (snd turn1) in
    let turn3 := MethodSession.processMessage Sample.env roster
                   (txt "Let's plan the quarterly budget allocation strategy")
                   (txt "constructor") (snd (fst turn2)) (snd turn2) in
    MethodSession.resolvedNonEmpty (fst (fst turn1)) = true
    ∧ MethodSession.resolvedNonEmpty (fst (fst turn2)) = true
    ∧ fst (fst turn3) = Rejected (txt "TypeError").
Proof.
  split; [|split; [|split]].
  - intros env runtimes message sessionId context w Hchanged.
    unfold MethodSession.processMessage, MethodSession.handleTopicChange.
    by rewrite Hchanged.
  - apply getProperty_method; [|apply lookup_empty].
    apply list_elem_of_In. vm_compute. left. reflexivity.
  - apply getProperty_method; [|apply lookup_empty].
    apply list_elem_of_In. vm_compute. left. reflexivity.
  - intros roster turn1 turn2 turn3.
    split; [|split]; vm_compute; reflexivity.
Qed.

End Turn.

(** ** Length governance: the counterexample *)

Section OverBudget.
Import Formatter.

(** C6, as stated, fails on both counts.  For Analyst Alex (base budget
    1200) a text of 3600 code units, whose only sentence terminator is 1000
    code units behind the base budget, is cut to 2200 code units when the
    user asked for detail: the budget of the turn is the base budget times
    context factors and a jitter, about 2221 here, not the base budget.  For
    Curious Clara (base budget 750) a text of 2250 code units without any
    terminator is cut to the empty text, which ends at no terminator. *)
Lemma C6_counterexample :
  (baseLimit (txt "Analyst Alex") = Some 1200%Q
   ∧ length Sample.farSentence = 3 * 1200
   ∧ Str.indexOf Sample.farSentence (txt ".") = Some 2199
   ∧ Str.includes Sample.farSentence (txt "!") = false
   ∧ Str.includes Sample.farSentence (txt "?") = false
   ∧ length (processResponseWith Sample.farSentence (txt "Analyst Alex")
               Sample.detailedRequest (99 # 100)%Q (999 # 1000)%Q) = 2200
   ∧ ¬ (2200 ≤ 1200))
  ∧ (baseLimit (txt "Curious Clara") = Some 750%Q
     ∧ length Sample.noSentence = 3 * 750
     ∧ processResponseWith Sample.noSentence (txt "Curious Clara") noContext
         (99 # 100)%Q (1 # 2)%Q = []
     ∧ endsAtTerminator [] = false).
Proof.
  repeat match goal with |- _ ∧ _ => split end;
    try (vm_compute; reflexivity).
  lia.
Qed.

End OverBudget.

(** ** The matcher consumes a prefix of what is left *)

Section Matcher.
Import Regex.

Lemma reaches_refl p : reaches p p [].
Proof. repeat split. cbn. by rewrite N.add_0_r. Qed.

Lemma reaches_trans p1 p2 p3 w1 w2 :
  reaches p1 p2 w1 -> reaches p2 p3 w2 -> reaches p1 p3 (w1 ++ w2).
Proof.
  intros (R1 & B1 & I1) (R2 & B2 & I2). repeat split.
  - by rewrite R1, R2, app_assoc.
  - by rewrite B2, B1, rev_app_distr, app_assoc.
  - rewrite I2, I1, length_app. lia.
Qed.

Lemma reaches_next c s p : rest p = c :: s -> reaches p (next c s p) [c].
Proof. intros H. repeat split; cbn; [done|lia]. Qed.

Lemma step_inv ok p k e :
  step ok p k = Some e ->
  ∃ c s, rest p = c :: s ∧ ok c = true ∧ k (next c s p) = Some e.
Proof.
  unfold step. destruct (rest p) as [|c s]; [done|].
  destruct (ok c) eqn:E; [|done]. intros H. by exists c, s.
Qed.

Lemma step_sound ok : sound (step ok).
Proof.
  intros p k e H. destruct (step_inv _ _ _ _ H) as (c & s & Hr & _ & Hk).
  exists (next c s p), [c]. split; [by apply reaches_next|done].
Qed.

Lemma optional_reaches m k :
  sound m ->
  ∀ fuel hi p e, optional m k fuel hi p = Some e ->
                 ∃ p' w, reaches p p' w ∧ k p' = Some e.
Proof.
  intros Hm. induction fuel as [|x fuel IH]; intros hi p e H; cbn in H.
  - exists p, []. split; [apply reaches_refl|]. by destruct (spent hi).
  - destruct (spent hi); [exists p, []; split; [apply reaches_refl|done]|].
    destruct (m p _) as [e0|] eqn:E.
    + inversion H; subst e0.
      destruct (Hm _ _ _ E) as (p1 & w1 & R1 & K1).
      destruct (idx p1 =? idx p)%N; [done|].
      destruct (IH _ _ _ K1) as (p2 & w2 & R2 & K2).
      exists p2, (w1 ++ w2). split; [by eapply reaches_trans|done].
    + exists p, []. split; [apply reaches_refl|done].
Qed.

Lemma required_reaches m k :
  sound m ->
  ∀ lo hi p e, required m k lo hi p = Some e ->
               ∃ p' w, reaches p p' w ∧ k p' = Some e.
Proof.
  intros Hm. induction lo as [|lo IH]; intros hi p e H; cbn in H.
  - destruct (spent hi); [exists p, []; split; [apply reaches_refl|done]|].
    by eapply optional_reaches.
  - destruct (spent hi); [exists p, []; split; [apply reaches_refl|done]|].
    destruct (Hm _ _ _ H) as (p1 & w1 & R1 & K1).
    destruct (IH _ _ _ K1) as (p2 & w2 & R2 & K2).
    exists p2, (w1 ++ w2). split; [by eapply reaches_trans|done].
Qed.

(** Whatever the pattern, the matcher is sound. *)
Lemma rmatch_sound ic r : sound (rmatch ic r).
Proof.
  induction r as [|c| |neg items|r1 IH1 r2 IH2|r1 IH1 r2 IH2|lo hi r1 IH1| | |neg];
    intros p k e H; cbn [rmatch] in H.
  - exists p, []. split; [apply reaches_refl|done].
  - by apply step_sound in H.
  - by apply step_sound in H.
  - by apply step_sound in H.
  - destruct (IH1 _ _ _ H) as (p1 & w1 & R1 & K1).
    destruct (IH2 _ _ _ K1) as (p2 & w2 & R2 & K2).
    exists p2, (w1 ++ w2). split; [by eapply reaches_trans|done].
  - destruct (rmatch ic r1 p k) as [e0|] eqn:E.
    + inversion H; subst e0. by apply IH1.
    + by apply IH2.
  - by eapply required_reaches.
  - exists p, []. split; [apply reaches_refl|]. by destruct (before p).
  - exists p, []. split; [apply reaches_refl|]. by destruct (rest p).
  - exists p, []. split; [apply reaches_refl|]. by destruct (xorb _ _).
Qed.

Lemma matchAt_reaches ic r p e :
  matchAt ic r p = Some e -> ∃ w, reaches p e w.
Proof.
  intros H. destruct (rmatch_sound ic r _ _ _ H) as (p' & w & R & K).
  inversion K; subst. by exists w.
Qed.

Lemma matched_reaches p e w : reaches p e w -> matched p e = w.
Proof.
  intros (R & _ & I). unfold matched. rewrite I, R.
  replace (N.to_nat (idx p + N.of_nat (length w) - idx p)) with (length w) by lia.
  by rewrite take_app_length.
Qed.

(** The leftmost match starts at a position of the subject. *)
Lemma execFrom_inv ic r i b s p e :
  execFrom ic r i b s = Some (p, e) ->
  matchAt ic r p = Some e ∧ ∃ pre, s = pre ++ rest p.
Proof.
  revert i b. induction s as [|c s IH]; intros i b H; cbn in H.
  - destruct (matchAt ic r (Pos i b [])) eqn:E; [|done].
    inversion H; subst. split; [done|]. by exists [].
  - destruct (matchAt ic r (Pos i b (c :: s))) eqn:E.
    + inversion H; subst. split; [done|]. by exists [].
    + destruct (IH _ _ H) as (Hm & pre & Hs). split; [done|].
      exists (c :: pre). by rewrite Hs.
Qed.

(** A match is no longer than the subject. *)
Lemma exec_length ic r s m : exec ic r s = Some m -> length m ≤ length s.
Proof.
  unfold exec. destruct (execFrom ic r 0 [] s) as [[p e]|] eqn:E; [|done].
  intros H; inversion H; subst m.
  destruct (execFrom_inv _ _ _ _ _ _ _ E) as (_ & pre & Hs).
  unfold matched. rewrite length_take, Hs, length_app. lia.
Qed.

Lemma sentenceRe_pattern :
  Formatter.sentenceRe
  = RSeq (RRep 0 None RAny)
         (RClass false [CChar "."%char; CChar "!"%char; CChar "?"%char]).
Proof. reflexivity. Qed.

(** A match of the sentence pattern ends with a sentence terminator. *)
Lemma sentence_match_ends p e :
  matchAt false Formatter.sentenceRe p = Some e ->
  ∃ w c, reaches p e (w ++ [c]) ∧ isTerminator c = true.
Proof.
  rewrite sentenceRe_pattern. unfold matchAt. cbn [rmatch]. intros H.
  destruct (required_reaches _ _ (rmatch_sound false RAny) _ _ _ _ H)
    as (p1 & w1 & R1 & K1).
  destruct (step_inv _ _ _ _ K1) as (c & s & Hr & Hc & Hk).
  inversion Hk; subst e. exists w1, c. split.
  - eapply reaches_trans; [done|by apply reaches_next].
  - cbv [xorb classHas existsb itemHas orb] in Hc. unfold isTerminator.
    destruct (Char.eqb "." c); [done|].
    destruct (Char.eqb "!" c); [done|].
    by destruct (Char.eqb "?" c).
Qed.

Lemma exec_sentence_ends s m :
  exec false Formatter.sentenceRe s = Some m ->
  ∃ w c, m = w ++ [c] ∧ isTerminator c = true.
Proof.
  unfold exec. destruct (execFrom _ _ 0 [] s) as [[p e]|] eqn:E; [|done].
  intros H; inversion H; subst m.
  destruct (execFrom_inv _ _ _ _ _ _ _ E) as (Hm & _).
  destruct (sentence_match_ends _ _ Hm) as (w & c & R & Hc).
  exists w, c. split; [by apply matched_reaches|done].
Qed.

End Matcher.

(** ** Trimming *)

Section Trimming.

Lemma trimStart_length s : length (Str.trimStart s) ≤ length s.
Proof. induction s as [|c s IH]; cbn; [lia|]. destruct (Char.isSpace c); cbn; lia. Qed.

Lemma trimEnd_length s : length (Str.trimEnd s) ≤ length s.
Proof.
  unfold Str.trimEnd. rewrite length_rev.
  etrans; [apply trimStart_length|]. by rewrite length_rev.
Qed.

Lemma trim_length s : length (Str.trim s) ≤ length s.
Proof. unfold Str.trim. etrans; [apply trimStart_length|apply trimEnd_length]. Qed.

Lemma trimStart_spaces w s :
  forallb Char.isSpace w = true -> Str.trimStart (w ++ s) = Str.trimStart s.
Proof.
  induction w as [|c w IH]; cbn; [done|].
  intros [Hc Hw]%andb_true_iff. rewrite Hc. by apply IH.
Qed.

(** White space at the end does not count. *)
Lemma trimEnd_spaces s w :
  forallb Char.isSpace w = true -> Str.trimEnd (s ++ w) = Str.trimEnd s.
Proof.
  intros H. unfold Str.trimEnd. rewrite rev_app_distr, trimStart_spaces; [done|].
  rewrite forallb_forall in *. intros c Hc. apply H. by apply in_rev.
Qed.

Lemma trim_spaces_length s w :
  forallb Char.isSpace w = true -> length (Str.trim (s ++ w)) ≤ length s.
Proof.
  intros H. unfold Str.trim. rewrite trimEnd_spaces by done.
  etrans; [apply trimStart_length|apply trimEnd_length].
Qed.

Lemma trimEnd_last s c :
  Char.isSpace c = false -> Str.trimEnd (s ++ [c]) = s ++ [c].
Proof.
  intros H. unfold Str.trimEnd. rewrite rev_app_distr. cbn. rewrite H.
  cbn. by rewrite rev_involutive.
Qed.

Lemma trimStart_last s c :
  Char.isSpace c = false -> ∃ s', Str.trimStart (s ++ [c]) = s' ++ [c].
Proof.
  intros H. induction s as [|x s IH]; cbn.
  - rewrite H. by exists [].
  - destruct (Char.isSpace x); [done|]. by exists (x :: s).
Qed.

(** Trimming keeps a last code unit that is not white space. *)
Lemma trim_last s c :
  Char.isSpace c = false -> ∃ s', Str.trim (s ++ [c]) = s' ++ [c].
Proof.
  intros H. unfold Str.trim. rewrite trimEnd_last by done. by apply trimStart_last.
Qed.

Lemma terminator_not_space c : isTerminator c = true -> Char.isSpace c = false.
Proof.
  unfold isTerminator, Char.eqb. intros H.
  repeat (apply orb_true_iff in H as [H|H]);
    apply Ascii.eqb_eq in H; by subst c.
Qed.

Lemma endsAtTerminator_last s c : endsAtTerminator (s ++ [c]) = isTerminator c.
Proof. unfold endsAtTerminator. by rewrite rev_app_distr. Qed.

Lemma nn_spaces : forallb Char.isSpace Formatter.nn = true.
Proof. reflexivity. Qed.

(** A text without the separator is a single piece. *)
Lemma splitGo_single sep cur s :
  Str.includes s sep = false -> Str.splitGo sep 0 cur s = [rev cur ++ s].
Proof.
  revert cur. induction s as [|c s IH]; intros cur H; cbn.
  - by rewrite app_nil_r.
  - cbn in H. apply orb_false_iff in H as [H1 H2].
    change (Str.startsWith (c :: s) sep) with
      (match sep with [] => true | a :: p' => Char.eqb a c && Str.startsWith s p' end) in H1.
    destruct sep as [|a sep']; [done|].
    cbn [Str.startsWith]. rewrite H1, IH by done.
    cbn. by rewrite <- app_assoc.
Qed.

Lemma split_single s sep : Str.includes s sep = false -> Str.split s sep = [s].
Proof. intros H. unfold Str.split. by rewrite splitGo_single. Qed.

End Trimming.

(** ** Rational numbers and lengths *)

Section Numbers.

Lemma Qofnat_le n m : n ≤ m -> (Qofnat n <= Qofnat m)%Q.
Proof. intros H. unfold Qofnat, Qle. cbn. lia. Qed.

Lemma Qofnat_add n m : (Qofnat (n + m) == Qofnat n + Qofnat m)%Q.
Proof. unfold Qofnat. rewrite Nat2Z.inj_add, inject_Z_plus. reflexivity. Qed.

Lemma Qofnat_nonneg n : (0 <= Qofnat n)%Q.
Proof. unfold Qofnat, Qle. cbn. lia. Qed.

(** Truncation does not exceed a number that is not negative. *)
Lemma Qofnat_Qtrunc q : (0 <= q)%Q -> (Qofnat (Qtrunc q) <= q)%Q.
Proof.
  intros H. unfold Qofnat, Qtrunc.
  assert (0 <= Qfloor q)%Z.
  { change 0%Z with (Qfloor 0). by apply Qfloor_resp_le. }
  rewrite Z2Nat.id by done. apply Qfloor_le.
Qed.

End Numbers.

(** ** Length governance *)

Section Governance.
Import Formatter.

(** The text built by the paragraph loop is empty or ends with a blank line
    behind at most [limit] code units. *)
Lemma keepParagraphs_within (limit : Q) paragraphs :
  ∀ result,
    (result = [] ∨ ∃ z, result = z ++ nn ∧ (Qofnat (length z) <= limit)%Q) ->
    keepParagraphs limit result paragraphs = []
    ∨ ∃ z, keepParagraphs limit result paragraphs = z ++ nn
           ∧ (Qofnat (length z) <= limit)%Q.
Proof.
  induction paragraphs as [|p paragraphs IH]; intros result Hr; cbn [keepParagraphs].
  - done.
  - destruct (Qle_bool (Qofnat (length (result ++ p))) limit) eqn:Hfit.
    + apply IH. right. exists (result ++ p). split; [by rewrite <- app_assoc|].
      by apply Qle_bool_iff.
    + destruct (Qlt_bool 80 (limit - Qofnat (length result))) eqn:Hroom; [|done].
      destruct (Regex.exec false sentenceRe _) as [lastSentence|] eqn:Hs; [|done].
      right. exists (result ++ lastSentence). split; [by rewrite <- app_assoc|].
      apply Qlt_bool_iff in Hroom.
      apply exec_length in Hs. unfold Str.substringTo in Hs.
      rewrite length_take in Hs.
      assert (Hls : (Qofnat (length lastSentence) <= limit - Qofnat (length result))%Q).
      { eapply Qle_trans; [apply Qofnat_le|apply Qofnat_Qtrunc]; [lia|lra]. }
      rewrite length_app, Qofnat_add. lra.
Qed.

Lemma keepParagraphs_trim_length (limit : Q) paragraphs :
  (0 <= limit)%Q ->
  (Qofnat (length (Str.trim (keepParagraphs limit [] paragraphs))) <= limit)%Q.
Proof.
  intros Hl.
  destruct (keepParagraphs_within limit paragraphs [] (or_introl eq_refl))
    as [->|(z & -> & Hz)]; [done|].
  eapply Qle_trans; [apply Qofnat_le, trim_spaces_length, nn_spaces|done].
Qed.

(** What fitToLimit returns is within the limit. *)
Lemma fitToLimit_length responseText (limit : Q) :
  (0 <= limit)%Q ->
  (Qofnat (length (fitToLimit responseText limit)) <= limit)%Q.
Proof.
  intros Hl. unfold fitToLimit.
  destruct (Qlt_bool limit (Qofnat (length responseText))) eqn:Hover.
  - destruct (Regex.exec false sentenceRe _) as [m|] eqn:Hm;
      [|by apply keepParagraphs_trim_length].
    destruct (Qlt_bool (limit * _) _); [|by apply keepParagraphs_trim_length].
    apply exec_length in Hm. unfold Str.substringTo in Hm. rewrite length_take in Hm.
    pose proof (trim_length m).
    eapply Qle_trans; [apply Qofnat_le|by apply Qofnat_Qtrunc]. lia.
  - by apply Qlt_bool_false_iff.
Qed.


Lemma trim_sentence m :
  (∃ w c, m = w ++ [c] ∧ isTerminator c = true) ->
  endsAtTerminator (Str.trim m) = true.
Proof.
  intros (w & c & -> & Hc).
  destruct (trim_last w c (terminator_not_space c Hc)) as [s' ->].
  by rewrite endsAtTerminator_last.
Qed.

(** A single paragraph that exceeds the limit is cut to the empty text or at
    a sentence terminator. *)
Lemma fitToLimit_terminator responseText (limit : Q) :
  Str.includes responseText nn = false ->
  (limit < Qofnat (length responseText))%Q ->
  fitToLimit responseText limit = []
  ∨ endsAtTerminator (fitToLimit responseText limit) = true.
Proof.
  intros Hsingle Hover. unfold fitToLimit.
  rewrite (proj2 (Qlt_bool_iff _ _) Hover).
  assert (Hparagraphs :
    Str.trim (keepParagraphs limit [] (Str.split responseText nn)) = []
    ∨ endsAtTerminator (Str.trim (keepParagraphs limit [] (Str.split responseText nn)))
      = true).
  { rewrite split_single by done. cbn [keepParagraphs app].
    destruct (Qle_bool (Qofnat (length responseText)) limit) eqn:Hfit.
    { apply Qle_bool_iff in Hfit. lra. }
    destruct (Qlt_bool 80 _); [|by left].
    destruct (Regex.exec false sentenceRe _) as [lastSentence|] eqn:Hs; [|by left].
    right. unfold Str.trim. rewrite trimEnd_spaces by apply nn_spaces.
    apply trim_sentence. by eapply exec_sentence_ends. }
  destruct (Regex.exec false sentenceRe _) as [m|] eqn:Hm; [|done].
  destruct (Qlt_bool (limit * _) _); [|done].
  right. apply trim_sentence. by eapply exec_sentence_ends.
Qed.


(** C6, amended. The result of the normalizer is within the budget of the
    turn, which is the base budget of the persona times the context factors
    and the jitter (and so can exceed the base budget); and when the cleaned
    text is a single paragraph longer than that budget, the result is empty
    or ends at one of the terminators full stop, exclamation mark and
    question mark.  [limit] is the budget as the turn computed it, whatever
    number the arithmetic of the source gave (a double is a rational); the
    result is the cut of the cleaned text at that number.  A budget that is
    not a number, which the source gets for a persona named after a property
    of Object.prototype, cuts nothing and is not covered. *)
Theorem C6_result_within_turn_budget :
  forall responseText agentName cleaned (limit : Q),
    (0 <= limit)%Q ->
    cleanup responseText agentName = Some cleaned ->
    let out := fitToLimit cleaned limit in
    (Qofnat (length out) <= limit)%Q
    ∧ (Str.includes cleaned nn = false ->
       (limit < Qofnat (length cleaned))%Q ->
       out = [] ∨ endsAtTerminator out = true).
Proof.
  intros responseText agentName cleaned limit Hlimit _ out. subst out. split.
  - by apply fitToLimit_length.
  - by apply fitToLimit_terminator.
Qed.

End Governance.

Section GovernanceWitness.
Import Formatter.

(** Forty short sentences for Curious Clara with a brief budget of 382.5
    code units: the result is cut after the last sentence that fits. *)
Lemma C6_witness :
  let cleaned := Str.trim Sample.shortSentences in
  let limit := (765 # 2)%Q in
  let out := fitToLimit cleaned limit in
  ((Qofnat (length out) <= limit)%Q
   ∧ (Str.includes cleaned nn = false ->
      (limit < Qofnat (length cleaned))%Q ->
      out = [] ∨ endsAtTerminator out = true))
  ∧ length out = 367
  ∧ processResponseWith Sample.shortSentences (txt "Curious Clara") noContext 0 0 = out.
Proof.
  split.
  - apply (C6_result_within_turn_budget Sample.shortSentences (txt "Curious Clara")
             (Str.trim Sample.shortSentences) (765 # 2)%Q).
    + vm_compute. discriminate.
    + vm_compute. reflexivity.
  - split; vm_compute; reflexivity.
Defined.



End GovernanceWitness.

(** ** Sessions, retries and the loop over the agents *)

Section Sessions.
Import ChatWorkflowManager.


Lemma getOrCreateContext_other (contexts : gmap (list ascii) ConversationContext)
  (sessionId other : list ascii) :
  other ≠ sessionId ->
  fst (getOrCreateContext contexts sessionId) !! other = contexts !! other.
Proof.
  intros Hne. unfold getOrCreateContext.
  destruct (contexts !! sessionId); cbn [fst]; [done|]. by rewrite lookup_insert_ne.
Qed.

Lemma beginTurn_other env msg sessionId w other :
  other ≠ sessionId ->
  bg_contexts (beginTurn env msg sessionId w) !! other = sessionContexts w !! other.
Proof.
  intros Hne. unfold beginTurn.
  pose proof (getOrCreateContext_other (sessionContexts w) sessionId other Hne) as Hother.
  destruct (getOrCreateContext (sessionContexts w) sessionId) as [contexts context].
  destruct (handleTopicChange _ _ _ _ _) as [[? ?] ?]. cbn in *. by apply Hother.
Qed.

(** X2. A turn of a session whose id is an ordinary key leaves the other
    sessions alone: the context and the topic record kept under every other
    session id are what they were, and the current context points at the
    session of the turn. *)
Theorem processMessage_leaves_other_sessions :
  forall env runtimes msg sessionId w other,
    ordinaryKey sessionId = true ->
    other ≠ sessionId ->
    let w' := snd (processMessage env runtimes msg sessionId w) in
    sessionContexts w' !! other = sessionContexts w !! other
    ∧ sessionTopics w' !! other = sessionTopics w !! other
    ∧ currentContext w' = Some sessionId.
Proof.
  intros env runtimes msg sessionId w other _ Hne w'. subst w'.
  unfold processMessage.
  destruct (respondingAgents _); cbn [snd sessionContexts sessionTopics currentContext];
    rewrite !lookup_insert_ne by done; by rewrite beginTurn_other.
Qed.

End Sessions.
Section Retry.
Import ChatWorkflowManager.


(** X3. The retry loop returns the first usable answer.  It makes between
    zero and [attempts] calls of generateText, numbered consecutively; every
    call before the last one threw or returned the empty text; a result is
    the non-empty text of the last call, and there is no result only when
    all [attempts] calls threw or returned the empty text. *)
Theorem generateWithRetry_first_answer :
  forall generate prompt attempts calls,
    let r := generateWithRetry generate prompt attempts calls in
    calls ≤ snd r ≤ calls + attempts
    ∧ (∀ i, calls ≤ i -> S i < snd r -> fruitless (generate i prompt))
    ∧ match fst r with
      | Some t => t ≠ [] ∧ calls < snd r ∧ generate (snd r - 1) prompt = Returned t
      | None => snd r = calls + attempts
                ∧ ∀ i, calls ≤ i -> i < snd r -> fruitless (generate i prompt)
      end.
Proof.
  intros generate prompt attempts. induction attempts as [|attempts IH]; intros calls r.
  - subst r. cbn. repeat split; try lia. all: intros; lia.
  - subst r. cbn [generateWithRetry].
    destruct (generate calls prompt) as [[|c t]|] eqn:E.
    + specialize (IH (S calls)). cbv zeta in IH.
      destruct (generateWithRetry generate prompt attempts (S calls)) as [res n].
      cbn [fst snd] in *. destruct IH as (Hb & Hi & Hr).
      split; [lia|]. split.
      * intros i H1 H2. destruct (decide (i = calls)) as [->|]; [by right|].
        apply Hi; lia.
      * destruct res as [t|].
        -- destruct Hr as (? & ? & ?). repeat split; try done. lia.
        -- destruct Hr as (? & Hall). split; [lia|].
           intros i H1 H2. destruct (decide (i = calls)) as [->|]; [by right|].
           apply Hall; lia.
    + cbn [fst snd]. split; [lia|]. split; [intros; lia|].
      repeat split; [done|lia|]. by replace (S calls - 1) with calls by lia.
    + specialize (IH (S calls)). cbv zeta in IH.
      destruct (generateWithRetry generate prompt attempts (S calls)) as [res n].
      cbn [fst snd] in *. destruct IH as (Hb & Hi & Hr).
      split; [lia|]. split.
      * intros i H1 H2. destruct (decide (i = calls)) as [->|]; [by left|].
        apply Hi; lia.
      * destruct res as [t|].
        -- destruct Hr as (? & ? & ?). repeat split; try done. lia.
        -- destruct Hr as (? & Hall). split; [lia|].
           intros i H1 H2. destruct (decide (i = calls)) as [->|]; [by left|].
           apply Hall; lia.
Qed.

End Retry.

Section Loop.
Import ChatWorkflowManager.





End Loop.

(** ** What a turn leaves behind *)

Section TurnOutline.
Import ChatWorkflowManager.




End TurnOutline.

Section TurnProperties.
Import ChatWorkflowManager.








End TurnProperties.

(** ** Ranking *)

Section Ranking.
Import AgentSelector.

Lemma isMember_elem_of a (l : list (list ascii)) : isMember a l = true <-> a ∈ l.
Proof.
  unfold isMember. rewrite existsb_exists. split.
  - intros (x & Hin & Heq). unfold Str.eqb in Heq. apply bool_decide_eq_true in Heq.
    subst x. by apply list_elem_of_In.
  - intros H. exists a. split; [by apply list_elem_of_In|].
    by apply bool_decide_eq_true.
Qed.

Lemma scoreAgent_run messageLower context a random i :
  ∃ s, scoreAgent messageLower context a random i = ((a, s), S i).
Proof. eexists. reflexivity. Qed.

Lemma scoreAgents_names messageLower context agents random i :
  map fst (fst (scoreAgents messageLower context agents random i)) = agents
  ∧ snd (scoreAgents messageLower context agents random i) = i + length agents.
Proof.
  revert i. induction agents as [|a agents IH]; intros i; cbn [scoreAgents].
  - cbn. split; [done|lia].
  - unfold mbind, Rand_bind, mret, Rand_ret, scoreAgent, draw.
    unfold mbind, Rand_bind, mret, Rand_ret. simpl.
    destruct (IH (S i)) as [H1 H2].
    destruct (scoreAgents messageLower context agents random (S i)) as [others j].
    simpl in *. split; [by rewrite H1|lia].
Qed.

Lemma insertByScore_perm x l : insertByScore x l ≡ₚ x :: l.
Proof.
  induction l as [|y l IH]; cbn; [done|].
  destruct (Qlt_bool (snd y) (snd x)); [done|].
  rewrite IH. apply Permutation_swap.
Qed.

Lemma sortByScore_perm l : sortByScore l ≡ₚ l.
Proof.
  unfold sortByScore.
  assert (H : ∀ acc, fold_left (fun sorted x => insertByScore x sorted) l acc ≡ₚ acc ++ l).
  { induction l as [|x l IH]; intros acc; cbn; [by rewrite app_nil_r|].
    rewrite IH, insertByScore_perm. cbn. apply Permutation_middle. }
  apply H.
Qed.

Lemma insertByScore_descending x l : descending l -> descending (insertByScore x l).
Proof.
  unfold descending. induction l as [|y l IH]; intros Hs; cbn.
  - by repeat constructor.
  - apply StronglySorted_inv in Hs as [Hl Hy].
    destruct (Qlt_bool (snd y) (snd x)) eqn:E.
    + apply Qlt_bool_iff in E. constructor; [by constructor|].
      constructor; [lra|]. eapply Forall_impl; [exact Hy|].
      intros z Hz. cbn in Hz. lra.
    + apply Qlt_bool_false_iff in E. constructor; [by apply IH|].
      apply List.Forall_forall. intros z Hz.
      apply (Permutation_in _ (insertByScore_perm x l)) in Hz.
      destruct Hz as [->|Hz]; [done|].
      rewrite List.Forall_forall in Hy. by apply Hy.
Qed.

Lemma sortByScore_descending l : descending (sortByScore l).
Proof.
  unfold sortByScore.
  assert (H : ∀ acc, descending acc ->
                     descending (fold_left (fun sorted x => insertByScore x sorted) l acc)).
  { induction l as [|x l IH]; intros acc Hacc; cbn; [done|].
    by apply IH, insertByScore_descending. }
  apply H. constructor.
Qed.

Lemma rankAgentsByRelevance_perm messageLower availableAgents context random i :
  fst (rankAgentsByRelevance messageLower availableAgents context random i)
  ≡ₚ availableAgents.
Proof.
  destruct (scoreAgents_names messageLower context availableAgents random i) as [H1 H2].
  unfold rankAgentsByRelevance, mbind, Rand_bind, mret, Rand_ret.
  destruct (scoreAgents _ _ _ _ _) as [s j]. cbn in *.
  by rewrite sortByScore_perm, H1.
Qed.

(** X9. rankAgentsByRelevance returns every available agent exactly once (a
    permutation of its input), takes one draw for each agent, and orders the
    agents by their scores, highest first. *)
Theorem rankAgentsByRelevance_orders_all_agents :
  forall messageLower availableAgents context random i,
    let scored := fst (scoreAgents messageLower context availableAgents random i) in
    let r := rankAgentsByRelevance messageLower availableAgents context random i in
    fst r ≡ₚ availableAgents
    ∧ snd r = i + length availableAgents
    ∧ fst r = map fst (sortByScore scored)
    ∧ sortByScore scored ≡ₚ scored
    ∧ descending (sortByScore scored).
Proof.
  intros messageLower availableAgents context random i scored r.
  destruct (scoreAgents_names messageLower context availableAgents random i) as [H1 H2].
  assert (Hr : r = (map fst (sortByScore scored), i + length availableAgents)).
  { subst r scored. unfold rankAgentsByRelevance, mbind, Rand_bind, mret, Rand_ret.
    destruct (scoreAgents _ _ _ _ _) as [s j]. cbn in *. by rewrite H2. }
  rewrite Hr. cbn [fst snd]. repeat split.
  - rewrite sortByScore_perm. subst scored. by rewrite H1.
  - apply sortByScore_perm.
  - apply sortByScore_descending.
Qed.

(** X10. The penalty for the last speaker outweighs the random factor: of two
    agents with the same keyword score and the same recent-speaker boost,
    the one that spoke last scores strictly lower than the other, whatever
    the two draws are. *)
Theorem last_speaker_scores_below_equal_peer :
  forall messageLower context a b random i j,
    lastAgent context = Some a ->
    b ≠ a ->
    (keywordScore messageLower (agentKeywords a)
     == keywordScore messageLower (agentKeywords b))%Q ->
    (spokeRecently context a =? 0) = (spokeRecently context b =? 0) ->
    (0 <= random i < 1)%Q ->
    (0 <= random j < 1)%Q ->
    (snd (fst (scoreAgent messageLower context a random i))
     < snd (fst (scoreAgent messageLower context b random j)))%Q.
Proof.
  intros messageLower context a b random i j Hlast Hne Hk Hs Hi Hj.
  unfold scoreAgent, mbind, Rand_bind, mret, Rand_ret, draw. cbn [fst snd].
  rewrite Hlast, Hs.
  rewrite bool_decide_eq_true_2 by done.
  rewrite bool_decide_eq_false_2 by (intros [= ->]; done).
  destruct (spokeRecently context b =? 0); lra.
Qed.

End Ranking.

(** ** Response count and relationship reordering *)

Section Selection.
Import AgentSelector.

Lemma includesAny_intro s terms term :
  term ∈ terms -> Str.includes s term = true -> includesAny s terms = true.
Proof.
  intros Hin Hinc. unfold includesAny. apply existsb_exists.
  exists term. split; [by apply list_elem_of_In|done].
Qed.

Lemma determineResponseCount_outline context messageLower random i :
    let r := determineResponseCount context messageLower random i in
    (fst r = 1 ∨ fst r = 2 ∨ fst r = 3)
    ∧ i ≤ snd r ≤ i + 2
    ∧ (turnOr1 context ≤ 2 -> r = (3, i))
    ∧ (2 < turnOr1 context ->
       (∀ term, term ∈ comprehensiveTerms -> Str.includes messageLower term = true ->
                r = (3, i))
       ∧ (includesAny messageLower comprehensiveTerms = false ->
          ∀ term, term ∈ focusedTerms -> Str.includes messageLower term = true ->
                  r = (1, i))).
Proof.
  intros r. subst r. unfold determineResponseCount.
  unfold mbind, Rand_bind, draw, mret, Rand_ret.
  destruct (turnOr1 context <=? 2) eqn:Hturn.
  { apply Nat.leb_le in Hturn. cbn [fst snd].
    split; [auto|]. split; [lia|]. split; [done|]. intros; lia. }
  apply Nat.leb_gt in Hturn.
  destruct (includesAny messageLower comprehensiveTerms) eqn:Hc.
  { cbn [fst snd]. split; [auto|]. split; [lia|]. split; [done|]. intros _.
    split; [done|]. discriminate. }
  assert (Hnc : ∀ term, term ∈ comprehensiveTerms ->
                        Str.includes messageLower term = true -> False).
  { intros term Hin Hinc. rewrite (includesAny_intro _ _ _ Hin Hinc) in Hc. discriminate. }
  destruct (includesAny messageLower focusedTerms) eqn:Hf.
  { cbn [fst snd]. split; [auto|]. split; [lia|]. split; [intros; lia|]. intros _.
    split; [|done]. intros term Hin Hinc. by destruct (Hnc term). }
  assert (Hnf : ∀ term, term ∈ focusedTerms ->
                        Str.includes messageLower term = true -> False).
  { intros term Hin Hinc. rewrite (includesAny_intro _ _ _ Hin Hinc) in Hf. discriminate. }
  unfold mbind, Rand_bind, draw, mret, Rand_ret.
  destruct (Qlt_bool (random i) _); [|destruct (Qlt_bool (random (S i)) _)];
    cbn [fst snd]; (split; [auto|]); (split; [lia|]); (split; [intros; lia|]); intros _;
    (split; [intros term Hin Hinc; by destruct (Hnc term)|]);
    intros _ term Hin Hinc; by destruct (Hnf term).
Qed.

(** X11. determineResponseCount returns 1, 2 or 3 and takes at most two
    draws.  In the first two turns it returns 3 without a draw; later, a
    message with a comprehensive term gets 3 and, failing that, a message
    with a focused term gets 1, again without a draw. *)
Theorem determineResponseCount_policy :
  forall context messageLower random i,
    let r := determineResponseCount context messageLower random i in
    (fst r = 1 ∨ fst r = 2 ∨ fst r = 3)
    ∧ i ≤ snd r ≤ i + 2
    ∧ (turnOr1 context ≤ 2 -> r = (3, i))
    ∧ (2 < turnOr1 context ->
       (∀ term, term ∈ comprehensiveTerms -> Str.includes messageLower term = true ->
                r = (3, i))
       ∧ (includesAny messageLower comprehensiveTerms = false ->
          ∀ term, term ∈ focusedTerms -> Str.includes messageLower term = true ->
                  r = (1, i))).
Proof. intros. apply determineResponseCount_outline. Qed.

Lemma moveToFront_elem follower (baseOrder : list (list ascii)) a :
  follower ∈ baseOrder ->
  a ∈ moveToFront follower baseOrder <-> a ∈ baseOrder.
Proof.
  intros Hf. unfold moveToFront. rewrite elem_of_cons, list_elem_of_filter.
  destruct (decide (a = follower)) as [->|Hne].
  - split; [done|by left].
  - split; [by intros [?|[_ ?]]|by right].
Qed.

Lemma moveToFront_perm follower (baseOrder : list (list ascii)) :
  follower ∈ baseOrder -> NoDup baseOrder ->
  moveToFront follower baseOrder ≡ₚ baseOrder.
Proof.
  intros Hf Hnd. unfold moveToFront.
  induction baseOrder as [|x l IH]; [by apply elem_of_nil in Hf|].
  apply NoDup_cons in Hnd as [Hx Hnd].
  rewrite filter_cons. destruct (decide (x = follower)) as [->|Hne].
  - rewrite decide_False by naive_solver.
    assert (Hall : filter (fun agent => agent ≠ follower) l = l).
    { clear -Hx. induction l as [|y l IH]; [done|].
      rewrite filter_cons, decide_True by set_solver. f_equal. apply IH. set_solver. }
    by rewrite Hall.
  - rewrite decide_True by done.
    apply elem_of_cons in Hf as [->|Hf]; [done|].
    rewrite <- (IH Hf Hnd) at 2. apply Permutation_swap.
Qed.

Lemma followerLoop_draws lastAgentName baseOrder patterns random i :
  i ≤ snd (followerLoop lastAgentName baseOrder patterns random i) ≤ i + length patterns.
Proof.
  revert i. induction patterns as [|[follower likelihood] patterns IH]; intros i; cbn.
  - lia.
  - destruct (isMember follower baseOrder).
    + unfold mbind, Rand_bind, draw.
      destruct (_ && _); cbn; [lia|]. specialize (IH (S i)). lia.
    + specialize (IH i). lia.
Qed.

Lemma relationshipPatterns_length name patterns :
  relationshipPatterns name = Some patterns -> length patterns = 2.
Proof.
  unfold relationshipPatterns. repeat destruct (Str.eqb name _); by intros [= <-].
Qed.

Lemma applyRelationshipBasedOrdering_outline baseOrder context random i :
    let r := applyRelationshipBasedOrdering baseOrder context random i in
    (∀ a, a ∈ fst r <-> a ∈ baseOrder)
    ∧ (NoDup baseOrder -> fst r ≡ₚ baseOrder)
    ∧ i ≤ snd r ≤ i + 3
    ∧ (truthy (lastAgent context) = false ∨ length baseOrder < 2 ∨ turnBelow2 context = true ->
       r = (baseOrder, i)).
Proof.
  intros r. subst r. unfold applyRelationshipBasedOrdering.
  destruct (lastAgent context) as [[|c la]|] eqn:Hla; cbn [truthy];
    try (cbn; repeat split; try done; lia).
  destruct (length baseOrder <? 2) eqn:Hlen;
    [cbn; repeat split; try done; lia|].
  destruct (turnBelow2 context) eqn:Hturn;
    [cbn; repeat split; try done; lia|].
  apply Nat.ltb_ge in Hlen. cbn [orb].
  unfold mbind, Rand_bind, draw.
  destruct (skipsReordering (random i)).
  { cbn. repeat split; try done; try lia; try (intros [?|[?|?]]; [done|lia|done]). }
  destruct (relationshipPatterns (c :: la)) as [patterns|] eqn:Hp.
  2:{ cbn. repeat split; try done; try lia; try (intros [?|[?|?]]; [done|lia|done]). }
  pose proof (followerLoop_draws (c :: la) baseOrder patterns random (S i)) as Hd.
  rewrite (relationshipPatterns_length _ _ Hp) in Hd.
  destruct (followerLoop_result (c :: la) baseOrder patterns random (S i))
    as [H|(f & l & Hin & Hmem & H)].
  - rewrite H. repeat split; try done; try lia; try (intros [?|[?|?]]; [done|lia|done]).
  - rewrite H. apply isMember_elem_of in Hmem.
    split; [intros a; by apply moveToFront_elem|].
    split; [intros Hnd; by apply moveToFront_perm|].
    split; [lia|]. intros [?|[?|?]]; [done|lia|done].
Qed.

(** X12. The relationship reordering only reorders: its result has the same
    agents as the base order (a permutation of it when the base order has no
    repetition), it takes at most three draws, and it returns the base order
    untouched, without a draw, when there is no last agent, fewer than two
    agents, or a turn below 2. *)
Theorem applyRelationshipBasedOrdering_keeps_the_agents :
  forall baseOrder context random i,
    let r := applyRelationshipBasedOrdering baseOrder context random i in
    (∀ a, a ∈ fst r <-> a ∈ baseOrder)
    ∧ (NoDup baseOrder -> fst r ≡ₚ baseOrder)
    ∧ i ≤ snd r ≤ i + 3
    ∧ (truthy (lastAgent context) = false ∨ length baseOrder < 2 ∨ turnBelow2 context = true ->
       r = (baseOrder, i)).
Proof. intros. apply applyRelationshipBasedOrdering_outline. Qed.

End Selection.

(** ** selectAgents, mentions and handoffs *)

Section SelectAgents.
Import AgentSelector.

(** The agents that the mention loop adds are agents of its list that have
    a first name. *)
Lemma mentionLoop_elems messageLower agents :
  ∀ mentioned l,
    mentionLoop messageLower agents mentioned = Some l ->
    ∀ a, a ∈ l -> a ∈ mentioned ∨ (a ∈ agents ∧ truthy (firstNameLower a) = true).
Proof.
  induction agents as [|agent agents IH]; intros mentioned l H a Ha; cbn [mentionLoop] in H.
  - inversion H; subst. by left.
  - destruct (firstNameLower agent) as [[|c f]|] eqn:Hf.
    + destruct (IH _ _ H a Ha) as [?|[? ?]]; [by left|right]. split; [by right|done].
    + assert (Hagent : agent ∈ agent :: agents ∧ truthy (firstNameLower agent) = true).
      { split; [by left|by rewrite Hf]. }
      assert (Hstep : ∀ m, a ∈ m ++ [agent] ->
                           a ∈ m ∨ (a ∈ agent :: agents ∧ truthy (firstNameLower a) = true)).
      { intros m [?|Hx]%elem_of_app; [by left|].
        apply list_elem_of_singleton in Hx as ->. by right. }
      destruct (_ || _).
      * destruct (IH _ _ H a Ha) as [Hm|[? ?]]; [by apply Hstep|right].
        split; [by right|done].
      * destruct (directPatterns (c :: f)) as [patterns|]; [|done].
        cbn [mbind option_bind] in H.
        destruct (IH _ _ H a Ha) as [Hm|[? ?]]; [|right; split; [by right|done]].
        destruct (existsb _ patterns); destruct (_ && _);
          repeat (apply Hstep in Hm as [Hm|?]; [|by right]); by left.
    + destruct (IH _ _ H a Ha) as [?|[? ?]]; [by left|right]. split; [by right|done].
Qed.

Lemma take_elem {A} n (l : list A) a : a ∈ take n l -> a ∈ l.
Proof. intros H. by apply (subseteq_take n l). Qed.

Lemma selectAgents_subset msg availableAgents context random i l :
    fst (selectAgents msg availableAgents context random i) = Some l ->
    (∀ a, a ∈ l -> a ∈ availableAgents)
    ∧ (availableAgents ≠ [] -> l ≠ []).
Proof.
  unfold selectAgents.
  destruct (negb (Str.truthy msg) || (length availableAgents =? 0)).
  { intros [= <-]. done. }
  destruct ((_ || _) && isMember AnalystAlex availableAgents) eqn:Hb.
  { intros [= <-]. apply andb_true_iff in Hb as [_ Hm]. apply isMember_elem_of in Hm.
    split; [|done]. intros a [->|Ha]%elem_of_cons; [done|].
    by apply list_elem_of_filter in Ha as [_ Ha]. }
  destruct (getExplicitlyMentionedAgents (Str.toLowerCase msg) availableAgents)
    as [[|m mentioned]|] eqn:Hm; [|intros [= <-]|done].
  2:{ split; [|done]. intros a Ha.
      destruct (mentionLoop_elems _ _ _ _ Hm a Ha) as [Hx|[Hx _]]; [|done].
      by apply elem_of_nil in Hx. }
  unfold mbind, Rand_bind, mret, Rand_ret.
  pose proof (determineResponseCount_outline context (Str.toLowerCase msg) random i)
    as (Hcount & _).
  destruct (determineResponseCount _ _ _ _) as [responseCount c1]. cbn [fst] in Hcount.
  pose proof (rankAgentsByRelevance_perm (Str.toLowerCase msg) availableAgents
                context random c1) as Hperm.
  destruct (rankAgentsByRelevance _ _ _ _ _) as [ranked c2]. cbn [fst] in Hperm.
  assert (Htake : (∀ a, a ∈ take responseCount ranked -> a ∈ availableAgents)
                  ∧ (availableAgents ≠ [] -> take responseCount ranked ≠ [])).
  { split.
    - intros a Ha. rewrite <- Hperm. by eapply take_elem.
    - intros Hne Ht. apply (f_equal length) in Ht. rewrite length_take in Ht.
      apply Permutation_length in Hperm.
      destruct availableAgents; [done|]. cbn in *. lia. }
  destruct (turnAbove1 context).
  - pose proof (applyRelationshipBasedOrdering_outline
                  (take responseCount ranked) context random c2) as (Helem & _).
    destruct (applyRelationshipBasedOrdering _ _ _ _) as [ordered c3]. cbn [fst] in *.
    intros [= <-]. destruct Htake as [Ht1 Ht2]. split.
    + intros a Ha. by apply Ht1, Helem.
    + intros Hne ->. destruct (take responseCount ranked) as [|x t] eqn:E; [by apply Ht2|].
      assert (x ∈ []) by (apply Helem; by left). by apply elem_of_nil in H.
  - cbn [fst]. by intros [= <-].
Qed.

(** X13. selectAgents only returns agents it was given, and with a non-empty
    list of agents it returns at least one. *)
Theorem selectAgents_picks_available_agents :
  forall msg availableAgents context random i l,
    fst (selectAgents msg availableAgents context random i) = Some l ->
    (∀ a, a ∈ l -> a ∈ availableAgents)
    ∧ (availableAgents ≠ [] -> l ≠ []).
Proof. intros msg availableAgents context random i l. apply selectAgents_subset. Qed.

(** X14. A message with a blockchain keyword, when Analyst Alex is available,
    overrides everything else in selectAgents: Alex speaks first, followed by
    all the other available agents in their order, no draw is taken, and
    neither the mentions nor the response count are looked at. *)
Theorem selectAgents_topical_override :
  forall msg availableAgents context random i keyword,
    msg ≠ [] ->
    keyword ∈ blockchainKeywords ->
    Str.includes (Str.toLowerCase msg) keyword = true ->
    AnalystAlex ∈ availableAgents ->
    selectAgents msg availableAgents context random i
    = (Some (AnalystAlex :: filter (fun agent => agent ≠ AnalystAlex) availableAgents), i)
    ∧ (NoDup availableAgents ->
       AnalystAlex :: filter (fun agent => agent ≠ AnalystAlex) availableAgents
       ≡ₚ availableAgents).
Proof.
  intros msg availableAgents context random i keyword Hmsg Hk Hinc Halex.
  split; [|intros Hnd; by apply (moveToFront_perm AnalystAlex)].
  unfold selectAgents.
  destruct msg as [|c msg]; [done|]. cbn [Str.truthy negb orb].
  destruct availableAgents as [|a0 l0] eqn:Ha; [by apply elem_of_nil in Halex|].
  cbn [length Nat.eqb]. rewrite <- Ha in *.
  rewrite (includesAny_intro _ _ _ Hk Hinc), orb_true_r.
  rewrite (proj2 (isMember_elem_of _ _) Halex). done.
Qed.

Lemma firstName_without_space agent :
  Str.includes agent (txt " ") = false ->
  firstNameLower agent = None ∧ firstNameRaw agent = None.
Proof.
  intros H. unfold firstNameLower, firstNameRaw. by rewrite (split_single _ _ H).
Qed.

(** X15. An agent whose name has no space has no first name, and such an
    agent is never found by the addressing check of the orchestrator nor by
    the mention check of the selector, whatever the message says. *)
Theorem agent_without_first_name_is_never_addressed :
  forall agent msg messageLower availableAgents,
    Str.includes agent (txt " ") = false ->
    (agent ∉ ChatWorkflowManager.getDirectlyAddressedAgents msg availableAgents)
    ∧ (∀ l, getExplicitlyMentionedAgents messageLower availableAgents = Some l -> agent ∉ l).
Proof.
  intros agent msg messageLower availableAgents Hspace.
  destruct (firstName_without_space agent Hspace) as [Hf _]. split.
  - rewrite getDirectlyAddressedAgents_filter. intros [Ha _]%list_elem_of_filter.
    unfold ChatWorkflowManager.addressed in Ha. by rewrite Hf in Ha.
  - intros l Hl Hin.
    destruct (mentionLoop_elems _ _ _ _ Hl agent Hin) as [Hx|[_ Hx]].
    + by apply elem_of_nil in Hx.
    + by rewrite Hf in Hx.
Qed.

Lemma handoffLoop_result responseText otherAgents a :
  handoffLoop responseText otherAgents = Some (Some a) ->
  a ∈ otherAgents ∧ truthy (firstNameRaw a) = true.
Proof.
  induction otherAgents as [|agent agents IH]; cbn [handoffLoop]; [done|].
  destruct (firstNameRaw agent) as [[|c f]|] eqn:Hf.
  - intros H. destruct (IH H). split; [by right|done].
  - destruct (handoffPatterns (c :: f)) as [patterns|]; [|done]. cbn [mbind option_bind].
    destruct (existsb _ patterns).
    + intros [= <-]. split; [by left|by rewrite Hf].
    + intros H. destruct (IH H). split; [by right|done].
  - intros H. destruct (IH H). split; [by right|done].
Qed.

(** X16. identifyRecommendedNextAgent never hands over to the current agent:
    the agent it names is one of the available agents, differs from the
    current one, and has a two-part name. *)
Theorem identifyRecommendedNextAgent_names_another_agent :
  forall responseText currentAgent availableAgents a,
    identifyRecommendedNextAgent responseText currentAgent availableAgents = Some (Some a) ->
    a ∈ availableAgents ∧ a ≠ currentAgent ∧ Str.includes a (txt " ") = true.
Proof.
  intros responseText currentAgent availableAgents a H.
  apply handoffLoop_result in H as [[Hne Hin]%list_elem_of_filter Hf].
  repeat split; try done.
  destruct (Str.includes a (txt " ")) eqn:E; [done|].
  destruct (firstName_without_space a E) as [_ Hraw]. by rewrite Hraw in Hf.
Qed.

End SelectAgents.

(** ** The character limit, topics and the prompt *)

Section BudgetBounds.
Import Formatter.

(** X17. For an agent whose name is an ordinary key, the character limit
    stays within fixed multiples of the base limit of the agent (450 for an
    unknown agent): with a second draw in [0, 1) it is at least 0.425 times
    and less than 1.8515 times the base limit, whatever the text, the
    context and the first draw. *)
Theorem charLimit_bounds :
  forall responseText agentName context (r1 r2 : Q),
    ordinaryKey agentName = true ->
    (0 <= r2 < 1)%Q ->
    let base := default 450%Q (baseLimit agentName) in
    ((425 # 1000) * base <= charLimit responseText agentName context r1 r2)%Q
    ∧ (charLimit responseText agentName context r1 r2 < (18515 # 10000) * base)%Q.
Proof.
  intros responseText agentName context r1 r2 _ Hr base. subst base.
  unfold charLimit, isAgent, baseLimit.
  repeat match goal with
         | |- context [if ?b then _ else _] => destruct b
         end; cbv [default from_option id andb orb]; split; lra.
Qed.

(** X18. A response of at most 200 code units is never shortened by the
    length adjustment, for any agent, context and draws. *)
Theorem short_response_is_not_cut :
  forall responseText agentName context (r1 r2 : Q),
    (0 <= r2)%Q ->
    length responseText ≤ 200 ->
    applyDynamicLengthAdjustment responseText agentName context r1 r2 = responseText.
Proof.
  intros responseText agentName context r1 r2 Hr Hlen.
  unfold applyDynamicLengthAdjustment. apply fitToLimit_within.
  pose proof (charLimit_lower_bound responseText agentName context r1 r2 Hr) as Hb.
  eapply Qle_trans; [apply (Qofnat_le _ 200 Hlen)|].
  eapply Qle_trans; [|exact Hb]. vm_compute. discriminate.
Qed.

End BudgetBounds.

Section Topic.
Import ChatWorkflowManager.

Lemma filter_all_members (l : list (list ascii)) :
  filter (fun x : list ascii => x ∈ l) l = l.
Proof.
  assert (H : ∀ l' : list (list ascii),
             (∀ x, x ∈ l' -> x ∈ l) -> filter (fun x : list ascii => x ∈ l) l' = l').
  { induction l' as [|y l' IH]; intros Hsub; [done|].
    rewrite filter_cons, decide_True by (apply Hsub; by left).
    f_equal. apply IH. intros x Hx. apply Hsub. by right. }
  by apply H.
Qed.

(** X19. Repeating a message is no change of topic: when a message has no
    topic-change cue and at least one word of more than three code units,
    isNewTopic of the message against itself is false. *)
Theorem repeated_message_is_no_new_topic :
  forall msg,
    existsb (Str.includes (Str.toLowerCase msg)) topicChangeCues = false ->
    longWords (Str.toLowerCase msg) ≠ [] ->
    isNewTopic msg msg = false.
Proof.
  intros msg Hcue Hwords. unfold isNewTopic. rewrite Hcue.
  destruct (negb (Str.truthy msg)); [done|].
  rewrite filter_all_members.
  destruct (longWords (Str.toLowerCase msg)) as [|w ws] eqn:E; [done|].
  apply Qlt_bool_false_iff.
  assert (Hn : ¬ (Qofnat (length (w :: ws)) == 0)%Q).
  { unfold Qofnat, Qeq. cbn. lia. }
  assert (Hone : (Qofnat (length (w :: ws)) / Qofnat (length (w :: ws)) == 1)%Q).
  { unfold Qdiv. by apply Qmult_inv_r. }
  change (match length (w :: ws) with 0 => 1 | S _ => length (w :: ws) end)
    with (length (w :: ws)).
  rewrite Hone. vm_compute. discriminate.
Qed.

(** X20. A message without any word of more than three code units counts as
    a new topic against every non-empty previous message: the similarity is
    0 over 1. *)
Theorem message_of_short_words_is_a_new_topic :
  forall msg lastMessage,
    lastMessage ≠ [] ->
    longWords (Str.toLowerCase msg) = [] ->
    isNewTopic msg lastMessage = true.
Proof.
  intros msg lastMessage Hlast Hwords. unfold isNewTopic.
  destruct lastMessage as [|c lastMessage]; [done|]. cbn [Str.truthy negb].
  destruct (existsb _ topicChangeCues); [done|].
  rewrite Hwords. reflexivity.
Qed.

End Topic.

Section Prompt.
Import ChatWorkflowManager.

Lemma startsWith_app (p post : list ascii) : Str.startsWith (p ++ post) p = true.
Proof.
  induction p as [|x p IH]; cbn; [by destruct post|].
  unfold Char.eqb. by rewrite N.eqb_refl || rewrite Ascii.eqb_refl.
Qed.

Lemma contains_here (p post : list ascii) : contains (p ++ post) p.
Proof. by exists [], post. Qed.

Lemma contains_app_r (a s p : list ascii) : contains s p -> contains (a ++ s) p.
Proof. intros (pre & post & ->). exists (a ++ pre), post. by rewrite <- app_assoc. Qed.

Lemma contains_app_l (s b p : list ascii) : contains s p -> contains (s ++ b) p.
Proof.
  intros (pre & post & ->). exists pre, (post ++ b). by rewrite <- !app_assoc.
Qed.

Lemma transcript_contains previous r :
  r ∈ previous -> contains (transcript previous) (message r).
Proof.
  intros (l1 & l2 & ->)%list_elem_of_split. unfold transcript.
  rewrite map_app, concat_app. cbn [map concat].
  apply contains_app_r, contains_app_l.
  apply contains_app_r, contains_app_r, contains_here.
Qed.

Lemma conversationBlock_contains msg c previous :
  contains (conversationBlock msg c previous) msg
  ∧ ∀ r, r ∈ previous -> contains (conversationBlock msg c previous) (message r).
Proof.
  unfold conversationBlock. destruct previous as [|r0 previous].
  - split; [|by intros r Hr%elem_of_nil].
    apply contains_app_r, contains_app_r, contains_here.
  - split.
    + apply contains_app_r, contains_app_r, contains_here.
    + intros r Hr. do 6 apply contains_app_r.
      apply contains_app_l. by apply transcript_contains.
Qed.

(** X21. A prompt that buildAgentPrompt returns starts with the line that
    names the character of the agent, and it contains the user message and
    the message of every earlier response of the turn. *)
Theorem prompt_embeds_message_and_earlier_responses :
  forall runtimes msg agentName previous prompt,
    buildAgentPrompt runtimes msg agentName previous = Some prompt ->
    (∃ rt c, lookupRuntime runtimes agentName = Some rt ∧ character rt = Some c
             ∧ Str.startsWith prompt (txt "You are " ++ char_name c ++ txt ".") = true)
    ∧ contains prompt msg
    ∧ ∀ r, r ∈ previous -> contains prompt (message r).
Proof.
  intros runtimes msg agentName previous prompt. unfold buildAgentPrompt.
  destruct (lookupRuntime runtimes agentName) as [rt|]; [|done]. cbn [mbind option_bind].
  destruct (character rt) as [c|] eqn:Hc; [|done]. cbn [mbind option_bind].
  intros Heq. apply (inj Some) in Heq. subst prompt.
  destruct (conversationBlock_contains msg c previous) as [Hm Hr].
  split; [|split].
  - exists rt, c. split; [done|]. split; [done|].
    match goal with
    | |- Str.startsWith (?a ++ ?b ++ ?c ++ ?d) _ = true =>
        replace (a ++ b ++ c ++ d) with ((a ++ b ++ c) ++ d)
          by (by rewrite <- !app_assoc)
    end.
    apply startsWith_app.
  - by do 12 apply contains_app_r.
  - intros r Hin. do 12 apply contains_app_r. by apply Hr.
Qed.

End Prompt.

(** ** The replies of the endpoint and the cleaned text *)

Section EndpointReplies.
Import ChatWorkflowManager ChatEndpoint.




Lemma lookupRuntime_In runtimes agentName rt :
  lookupRuntime runtimes agentName = Some rt -> List.In (agentName, rt) runtimes.
Proof.
  induction runtimes as [|[k r] runtimes IH]; [done|]. cbn [lookupRuntime].
  unfold Str.eqb. case_bool_decide as Hk.
  - intros [= ->]. subst k. by left.
  - intros H. right. by apply IH.
Qed.

(** X24. setupMultiAgentChatEndpoint keeps exactly the runtimes that have a
    model provider and a character: when it succeeds, the runtimes of the
    manager are not empty, every one of them is a runtime that was passed
    in and has both fields; it throws exactly when no runtime is valid. *)
Theorem setup_keeps_the_valid_runtimes :
  forall runtimes,
    match setupMultiAgentChatEndpoint runtimes with
    | Some valid =>
        valid ≠ []
        ∧ valid = validRuntimes runtimes
        ∧ hasCharacters valid
        ∧ (∀ agentName rt,
             lookupRuntime valid agentName = Some rt ->
             List.In (agentName, rt) runtimes
             ∧ is_Some (modelProvider rt) ∧ is_Some (character rt))
    | None => List.Forall (fun entry => isValidRuntime (snd entry) = false) runtimes
    end.
Proof.
  intros runtimes. unfold setupMultiAgentChatEndpoint.
  assert (Hvalid : ∀ agentName rt,
             lookupRuntime (validRuntimes runtimes) agentName = Some rt ->
             List.In (agentName, rt) runtimes
             ∧ is_Some (modelProvider rt) ∧ is_Some (character rt)).
  { intros agentName rt Hl. apply lookupRuntime_In in Hl.
    unfold validRuntimes in Hl. apply List.filter_In in Hl as [Hin Hv].
    split; [done|]. cbn in Hv. unfold isValidRuntime in Hv.
    destruct (modelProvider rt), (character rt); done. }
  destruct (validRuntimes runtimes) as [|e valid] eqn:E.
  - apply List.Forall_forall. intros entry Hin.
    destruct (isValidRuntime (snd entry)) eqn:Hv; [|done].
    assert (Hf : List.In entry (validRuntimes runtimes))
      by (apply List.filter_In; by split).
    rewrite E in Hf. destruct Hf.
  - split; [done|]. split; [done|]. split; [|exact Hvalid].
    intros agentName rt Hl. by destruct (Hvalid _ _ Hl) as (_ & _ & ?).
Qed.

End EndpointReplies.

Section CleanedHead.
Import Regex Formatter.

Lemma isLowerAZ_toUpper (c : ascii) :
  Char.isLowerAZ c = true -> Char.isLowerAZ (Char.toUpper c) = false.
Proof. destruct c as [[] [] [] [] [] [] [] []]; vm_compute; congruence. Qed.

Lemma capitalizeFirst_startsLower (s : text) : startsLower (capitalizeFirst s) = false.
Proof.
  destruct s as [|c s]; [done|]. unfold capitalizeFirst.
  destruct (Char.isLowerAZ c) eqn:E; cbn; [by apply isLowerAZ_toUpper|done].
Qed.

Lemma replaceWith_I_startsLower ic r (s : text) :
  startsLower s = false -> startsLower (replaceWith ic r (txt "I") s) = false.
Proof.
  unfold replaceWith, replaceAll. destruct s as [|c s]; cbn [replaceGo].
  - intros _. destruct (matchAt ic r _); reflexivity.
  - intros Hc. destruct (matchAt ic r _) as [e|]; [|exact Hc].
    destruct (length _); reflexivity.
Qed.

Lemma correctNames_startsLower agentName firstName processed cleaned :
  correctNames agentName firstName processed = Some cleaned ->
  startsLower processed = false -> startsLower cleaned = false.
Proof.
  unfold correctNames.
  destruct (RegExp.parseRegExp (txt "I, " ++ firstName ++ txt ",")) as [r1|];
    cbn [mbind option_bind]; [|discriminate].
  destruct (RegExp.parseRegExp (txt "I, " ++ agentName ++ txt ",")) as [r2|];
    cbn [mbind option_bind]; [|discriminate].
  destruct (RegExp.parseRegExp (firstName ++ txt " thinks")) as [r3|];
    cbn [mbind option_bind]; [|discriminate].
  intros Heq Hp. apply (inj Some) in Heq. subst cleaned.
  by do 3 apply replaceWith_I_startsLower.
Qed.

(** X25. The text that the cleanup steps of processResponse produce never
    starts with a lower-case letter a-z: the capitalisation of step 7 is not
    undone by the name corrections of step 8. *)
Theorem cleaned_text_never_starts_in_lower_case :
  forall responseText agentName cleaned,
    cleanup responseText agentName = Some cleaned ->
    startsLower cleaned = false.
Proof.
  intros responseText agentName cleaned. unfold cleanup.
  destruct (removeQuestions _ _) as [p1|]; cbn [mbind option_bind]; [|discriminate].
  destruct (removeSelfReferences _ _ _) as [p2|]; cbn [mbind option_bind]; [|discriminate].
  intros Heq. eapply correctNames_startsLower; [exact Heq|].
  apply capitalizeFirst_startsLower.
Qed.

End CleanedHead.

(** ** The size of a turn *)

Section TurnBudget.
Import ChatWorkflowManager.

Lemma filter_ne_length (f : list ascii) (l : list (list ascii)) :
  f ∈ l -> S (length (filter (fun a : list ascii => a ≠ f) l)) ≤ length l.
Proof.
  induction l as [|x l IH]; [by intros ?%elem_of_nil|].
  intros Hf. rewrite filter_cons. destruct (decide (x ≠ f)) as [Hne|Heq].
  - cbn. apply elem_of_cons in Hf as [->|Hf]; [done|]. specialize (IH Hf). lia.
  - cbn. pose proof (length_filter (fun a : list ascii => a ≠ f) l). lia.
Qed.

Lemma isMember_snoc agent (m : list (list ascii)) :
  AgentSelector.isMember agent (m ++ [agent]) = true.
Proof. apply isMember_elem_of, elem_of_app. right. by left. Qed.

(** The mention loop adds an agent at most once. *)
Lemma mentionLoop_length messageLower agents :
  ∀ mentioned l,
    AgentSelector.mentionLoop messageLower agents mentioned = Some l ->
    length l ≤ length mentioned + length agents.
Proof.
  induction agents as [|agent agents IH]; intros mentioned l H;
    cbn [AgentSelector.mentionLoop] in H.
  - inversion H; subst. cbn. lia.
  - destruct (AgentSelector.firstNameLower agent) as [[|c f]|].
    + specialize (IH _ _ H). cbn. lia.
    + destruct (_ || _).
      * specialize (IH _ _ H). rewrite length_app in IH. cbn in *. lia.
      * destruct (AgentSelector.directPatterns (c :: f)) as [patterns|]; [|done].
        cbn [mbind option_bind] in H.
        destruct (existsb _ patterns).
        -- rewrite isMember_snoc in H. cbn [negb andb] in H.
           specialize (IH _ _ H). rewrite length_app in IH. cbn in *. lia.
        -- destruct (_ && _).
           ++ specialize (IH _ _ H). rewrite length_app in IH. cbn in *. lia.
           ++ specialize (IH _ _ H). cbn. lia.
    + specialize (IH _ _ H). cbn. lia.
Qed.

Lemma applyRelationshipBasedOrdering_length baseOrder context random i :
  length (fst (AgentSelector.applyRelationshipBasedOrdering baseOrder context random i))
  ≤ length baseOrder.
Proof.
  unfold AgentSelector.applyRelationshipBasedOrdering.
  destruct (lastAgent context) as [[|c la]|]; try (cbn; lia).
  destruct (_ || _); [cbn; lia|].
  unfold mbind, Rand_bind, draw.
  destruct (AgentSelector.skipsReordering (random i)); [cbn; lia|].
  destruct (AgentSelector.relationshipPatterns (c :: la)) as [patterns|]; [|cbn; lia].
  destruct (followerLoop_result (c :: la) baseOrder patterns random (S i))
    as [H|(f & l & Hin & Hmem & H)]; rewrite H; [lia|].
  apply isMember_elem_of in Hmem. unfold AgentSelector.moveToFront. cbn [length].
  by apply filter_ne_length.
Qed.

(** selectAgents never returns more agents than it is given. *)
Lemma selectAgents_length msg agents context random i l :
  fst (AgentSelector.selectAgents msg agents context random i) = Some l ->
  length l ≤ length agents.
Proof.
  unfold AgentSelector.selectAgents.
  destruct (negb (Str.truthy msg) || (length agents =? 0)).
  { by intros [= <-]. }
  destruct ((_ || _) && AgentSelector.isMember AgentSelector.AnalystAlex agents) eqn:Hb.
  { intros [= <-]. apply andb_true_iff in Hb as [_ Hm]. apply isMember_elem_of in Hm.
    cbn [length]. by apply filter_ne_length. }
  destruct (AgentSelector.getExplicitlyMentionedAgents (Str.toLowerCase msg) agents)
    as [[|m mentioned]|] eqn:Hm; [|intros [= <-]|done].
  2:{ by apply (mentionLoop_length _ _ _ _ Hm). }
  unfold mbind, Rand_bind, mret, Rand_ret.
  destruct (AgentSelector.determineResponseCount _ _ _ _) as [responseCount c1].
  pose proof (rankAgentsByRelevance_perm (Str.toLowerCase msg) agents
                context random c1) as Hperm.
  destruct (AgentSelector.rankAgentsByRelevance _ _ _ _ _) as [ranked c2].
  cbn [fst] in Hperm. apply Permutation_length in Hperm.
  assert (Htake : length (take responseCount ranked) ≤ length agents)
    by (rewrite length_take; lia).
  destruct (AgentSelector.turnAbove1 context).
  - pose proof (applyRelationshipBasedOrdering_length (take responseCount ranked)
                  context random c2) as Hlen.
    destruct (AgentSelector.applyRelationshipBasedOrdering _ _ _ _) as [ordered c3].
    cbn [fst] in *. intros [= <-]. lia.
  - cbn [fst]. by intros [= <-].
Qed.

Lemma lookupRuntime_keys runtimes a :
  a ∈ keys runtimes -> is_Some (lookupRuntime runtimes a).
Proof.
  induction runtimes as [|[k r] runtimes IH]; [by intros ?%elem_of_nil|].
  cbn [keys map fst lookupRuntime]. intros Ha. unfold Str.eqb.
  case_bool_decide as Hk; [by eexists|].
  apply elem_of_cons in Ha as [->|Ha]; [done|]. by apply IH.
Qed.

Lemma availableAgents_registered runtimes a :
  a ∈ availableAgents runtimes -> a ∈ keys runtimes.
Proof.
  unfold availableAgents. intros [Hm _]%list_elem_of_filter. by apply isMember_elem_of.
Qed.

Lemma availableAgents_length runtimes : length (availableAgents runtimes) ≤ 3.
Proof.
  unfold availableAgents.
  pose proof (length_filter (fun name => AgentSelector.isMember name (keys runtimes) = true)
                defaultAgentSequence) as H.
  exact H.
Qed.

(** The speaking order, whichever branch gives it. *)
Lemma determineRespondingAgents_order env runtimes msg context cursor :
  ∃ agents,
    respondingAgents (determineRespondingAgents env runtimes msg context cursor) = Some agents
    ∧ length agents ≤ 3
    ∧ ∀ a, a ∈ agents -> is_Some (lookupRuntime runtimes a).
Proof.
  unfold determineRespondingAgents.
  destruct (length (availableAgents runtimes) =? 0).
  { eexists. split; [done|]. split; [rewrite length_take; lia|].
    intros a Ha. apply lookupRuntime_keys. by eapply take_elem. }
  assert (Haddr : ∀ a, a ∈ getDirectlyAddressedAgents msg (availableAgents runtimes) ->
                       is_Some (lookupRuntime runtimes a)).
  { intros a Ha. rewrite getDirectlyAddressedAgents_filter in Ha.
    apply list_elem_of_filter in Ha as [_ Ha].
    by apply lookupRuntime_keys, availableAgents_registered. }
  assert (Hlen : length (getDirectlyAddressedAgents msg (availableAgents runtimes)) ≤ 3).
  { rewrite getDirectlyAddressedAgents_filter.
    pose proof (length_filter
                  (fun a => addressed (Str.toLowerCase msg) a = true)
                  (availableAgents runtimes)).
    pose proof (availableAgents_length runtimes). lia. }
  destruct (0 <? length _).
  { destruct (_ && _); by eexists. }
  pose proof (selectAgents_default msg (availableAgents runtimes) context (random env)
                cursor (availableAgents_default runtimes)) as [l Hl].
  pose proof (selectAgents_length msg (availableAgents runtimes) context (random env)
                cursor l Hl) as Hl3.
  pose proof (selectAgents_subset msg (availableAgents runtimes) context
                (random env) cursor l Hl) as [Hsub _].
  destruct (AgentSelector.selectAgents _ _ _ _ _) as [selected cursor'].
  cbn [fst] in Hl. subst selected. exists l. cbn [respondingAgents].
  split; [done|]. split.
  - pose proof (availableAgents_length runtimes). lia.
  - intros a Ha. by apply lookupRuntime_keys, availableAgents_registered, Hsub.
Qed.

(** X26. determineRespondingAgents always returns a speaking order (the
    selector never throws on the agents of the default sequence), of at most
    three agents, each of which has a runtime. *)
Theorem speaking_order_is_three_registered_agents_at_most :
  forall env runtimes msg context cursor,
    ∃ agents,
      respondingAgents (determineRespondingAgents env runtimes msg context cursor)
      = Some agents
      ∧ length agents ≤ 3
      ∧ ∀ a, a ∈ agents -> is_Some (lookupRuntime runtimes a).
Proof. intros. apply determineRespondingAgents_order. Qed.


End TurnBudget.

(** ** The properties at sample inputs *)

Section Instances.
Import ChatWorkflowManager.

Lemma processMessage_leaves_other_sessions_witness :
  let w' := snd (processMessage Sample.env (Sample.roster Sample.throwing)
                   (txt "Hello there") (txt "s") initialWorld) in
  sessionContexts w' !! txt "t" = sessionContexts initialWorld !! txt "t"
  ∧ sessionTopics w' !! txt "t" = sessionTopics initialWorld !! txt "t"
  ∧ currentContext w' = Some (txt "s").
Proof.
  apply (processMessage_leaves_other_sessions Sample.env (Sample.roster Sample.throwing)
           (txt "Hello there") (txt "s") initialWorld (txt "t")).
  - reflexivity.
  - vm_compute. discriminate.
Defined.


Lemma last_speaker_scores_below_equal_peer_witness :
  (snd (fst (AgentSelector.scoreAgent (txt "hello") Sample.afterClara
               AgentSelector.CuriousClara (random Sample.env) 0%nat))
   < snd (fst (AgentSelector.scoreAgent (txt "hello") Sample.afterClara
                 AgentSelector.StrategicSam (random Sample.env) 1%nat)))%Q.
Proof.
  apply (last_speaker_scores_below_equal_peer (txt "hello") Sample.afterClara
           AgentSelector.CuriousClara AgentSelector.StrategicSam (random Sample.env) 0 1).
  - reflexivity.
  - vm_compute. discriminate.
  - vm_compute. reflexivity.
  - vm_compute. reflexivity.
  - cbn. lra.
  - cbn. lra.
Defined.

Lemma selectAgents_picks_available_agents_witness :
  let l := [AgentSelector.StrategicSam; AgentSelector.AnalystAlex;
            AgentSelector.CuriousClara] in
  (∀ a, a ∈ l -> a ∈ defaultAgentSequence)
  ∧ (defaultAgentSequence ≠ [] -> l ≠ []).
Proof.
  apply (selectAgents_picks_available_agents (txt "What should we build next?")
           defaultAgentSequence Sample.afterClara (random Sample.env) 0).
  vm_compute. reflexivity.
Defined.

Lemma selectAgents_topical_override_witness :
  AgentSelector.selectAgents (txt "Which token should I buy?") defaultAgentSequence
    newContext (random Sample.env) 0
  = (Some (AgentSelector.AnalystAlex
           :: filter (fun agent => agent ≠ AgentSelector.AnalystAlex) defaultAgentSequence),
     0)
  ∧ (NoDup defaultAgentSequence ->
     AgentSelector.AnalystAlex
     :: filter (fun agent => agent ≠ AgentSelector.AnalystAlex) defaultAgentSequence
     ≡ₚ defaultAgentSequence).
Proof.
  apply (selectAgents_topical_override (txt "Which token should I buy?")
           defaultAgentSequence newContext (random Sample.env) 0 (txt "token")).
  - vm_compute. discriminate.
  - apply list_elem_of_In. vm_compute. right. left. reflexivity.
  - vm_compute. reflexivity.
  - apply list_elem_of_In. vm_compute. left. reflexivity.
Defined.

Lemma agent_without_first_name_is_never_addressed_witness :
  let agents := [txt "Moderator"; txt "Analyst Alex"] in
  (txt "Moderator" ∉ getDirectlyAddressedAgents (txt "Moderator, what now?") agents)
  ∧ (∀ l, AgentSelector.getExplicitlyMentionedAgents (txt "moderator, what now?") agents
          = Some l -> txt "Moderator" ∉ l).
Proof.
  apply (agent_without_first_name_is_never_addressed (txt "Moderator")
           (txt "Moderator, what now?") (txt "moderator, what now?")
           [txt "Moderator"; txt "Analyst Alex"]).
  vm_compute. reflexivity.
Defined.

Lemma identifyRecommendedNextAgent_names_another_agent_witness :
  txt "Curious Clara" ∈ defaultAgentSequence
  ∧ txt "Curious Clara" ≠ txt "Analyst Alex"
  ∧ Str.includes (txt "Curious Clara") (txt " ") = true.
Proof.
  apply (identifyRecommendedNextAgent_names_another_agent
           (txt "Clara, what do you think about this?") (txt "Analyst Alex")
           defaultAgentSequence (txt "Curious Clara")).
  vm_compute. reflexivity.
Defined.

Lemma charLimit_bounds_witness :
  let base := default 450%Q (Formatter.baseLimit (txt "Analyst Alex")) in
  ((425 # 1000) * base
   <= Formatter.charLimit (txt "The data shows 12% growth.") (txt "Analyst Alex")
        Sample.detailedRequest (1 # 2) (1 # 2))%Q
  ∧ (Formatter.charLimit (txt "The data shows 12% growth.") (txt "Analyst Alex")
       Sample.detailedRequest (1 # 2) (1 # 2)
     < (18515 # 10000) * base)%Q.
Proof.
  apply (charLimit_bounds (txt "The data shows 12% growth.") (txt "Analyst Alex")
           Sample.detailedRequest (1 # 2)%Q (1 # 2)%Q).
  - reflexivity.
  - lra.
Defined.

Lemma short_response_is_not_cut_witness :
  Formatter.applyDynamicLengthAdjustment (txt "It depends.") (txt "Curious Clara")
    Formatter.noContext (1 # 2)%Q (1 # 2)%Q
  = txt "It depends.".
Proof.
  apply (short_response_is_not_cut (txt "It depends.") (txt "Curious Clara")
           Formatter.noContext (1 # 2)%Q (1 # 2)%Q).
  - lra.
  - simpl. lia.
Defined.

Lemma repeated_message_is_no_new_topic_witness :
  isNewTopic (txt "Tell me about the market") (txt "Tell me about the market") = false.
Proof.
  apply (repeated_message_is_no_new_topic (txt "Tell me about the market")).
  - vm_compute. reflexivity.
  - vm_compute. discriminate.
Defined.

Lemma message_of_short_words_is_a_new_topic_witness :
  isNewTopic (txt "ok") (txt "What is the market doing?") = true.
Proof.
  apply (message_of_short_words_is_a_new_topic (txt "ok")
           (txt "What is the market doing?")).
  - vm_compute. discriminate.
  - vm_compute. reflexivity.
Defined.

Lemma prompt_embeds_message_and_earlier_responses_witness :
  let runtimes := Sample.roster Sample.throwing in
  let prompt := default [] (buildAgentPrompt runtimes (txt "Hello there")
                              (txt "Curious Clara") Cases.alexSpoke) in
  (∃ rt c, lookupRuntime runtimes (txt "Curious Clara") = Some rt
           ∧ character rt = Some c
           ∧ Str.startsWith prompt (txt "You are " ++ char_name c ++ txt ".") = true)
  ∧ contains prompt (txt "Hello there")
  ∧ ∀ r, r ∈ Cases.alexSpoke -> contains prompt (message r).
Proof.
  apply (prompt_embeds_message_and_earlier_responses (Sample.roster Sample.throwing)
           (txt "Hello there") (txt "Curious Clara") Cases.alexSpoke).
  vm_compute. reflexivity.
Defined.




Lemma cleaned_text_never_starts_in_lower_case_witness :
  startsLower (txt "It depends on the data.") = false.
Proof.
  apply (cleaned_text_never_starts_in_lower_case (txt "it depends on the data.")
           (txt "Curious Clara") (txt "It depends on the data.")).
  vm_compute. reflexivity.
Defined.

End Instances.
